(** * A shallow embedding of the DTN simulator of cankocakulak/49F

    Sources embedded here:
    - [src/src/dtn_core.py]: [Bundle] (default id) and [DTNNode.store_bundle];
    - [src/src/routing_algorithms.py]: [DTNRoutingAlgorithm.get_alternative_paths];
    - [src/src/network_simulator.py]: [_build_network_graph] and
      [SimpleNetworkSimulator.simulate_transmission].

    Modelling choices.
    - Numbers ([delay], rates, random draws) are rationals [Q]; the Python
      floats are read as exact values.
    - [random.random()] is an injected generator: a state type [G] with
      [random : G -> Q * G]; every call site of the source draws once.
    - Logging, visualisation and [time.sleep] have no effect on the returned
      statistics and are left out; so is [avg_recovery_time] (wall clock).
    - The networkx graph ([nx.Graph] with [add_edge]) is the list of links in
      insertion order; adjacency order and attribute lookup follow networkx.
    - Python exceptions are the [Err] results of a small error monad, and the
      unbounded [while] loops run on fuel ([NoFuel] = still running). *)

From Stdlib Require Import Ascii String List QArith Bool Arith Lia Lqa.
Import ListNotations.
Open Scope string_scope.

(** ** Results: exceptions and fuel *)

Inductive exn : Type :=
| KeyError
| ValueError
| NodeNotFound.

Inductive res (A : Type) : Type :=
| Ok (a : A)
| Err (e : exn)
| NoFuel.
Arguments Ok {A} a.
Arguments Err {A} e.
Arguments NoFuel {A}.

Definition bind {A B} (m : res A) (k : A -> res B) : res B :=
  match m with
  | Ok a => k a
  | Err e => Err e
  | NoFuel => NoFuel
  end.

Notation "'let*' x ':=' m 'in' k" := (bind m (fun x => k))
  (at level 200, x name, m at level 100, k at level 200).

(** ** Strings *)

(** Python's [needle in hay] on strings. *)
Fixpoint contains (needle hay : string) : bool :=
  if String.prefix needle hay then true
  else match hay with
       | EmptyString => false
       | String _ rest => contains needle rest
       end.

Fixpoint mem (x : string) (l : list string) : bool :=
  match l with
  | [] => false
  | y :: l' => String.eqb x y || mem x l'
  end.

(** ** The network graph ([_build_network_graph]) *)

Record Link := mkLink {
  source : string;
  target : string;
  delay : Q;
  distance : string
}.

(** [G.add_edge] applied to the links in order. *)
Definition Graph := list Link.

(** Nodes in the order networkx inserts them. *)
Definition graph_nodes (g : Graph) : list string :=
  fold_left (fun acc l =>
    let acc := if mem (source l) acc then acc else app acc [source l] in
    if mem (target l) acc then acc else app acc [target l]) g [].

Definition has_node (g : Graph) (u : string) : bool := mem u (graph_nodes g).

(** [iter(G[u])]: a neighbour enters [G._adj[u]] at the first edge joining
    it to [u]. *)
Definition neighbors (g : Graph) (u : string) : list string :=
  fold_left (fun acc l =>
    let acc := if String.eqb (source l) u then
                 (if mem (target l) acc then acc else app acc [target l])
               else acc in
    if String.eqb (target l) u then
      (if mem (source l) acc then acc else app acc [source l])
    else acc) g [].

Definition joins (l : Link) (u v : string) : bool :=
  (String.eqb (source l) u && String.eqb (target l) v)
  || (String.eqb (source l) v && String.eqb (target l) u).

(** [G[u][v]]: the attributes of the last [add_edge] on the pair; a missing
    edge raises [KeyError]. *)
Definition edge_attr (g : Graph) (u v : string) : res (Q * string) :=
  fold_left (fun acc l =>
    if joins l u v then Ok (delay l, distance l) else acc) g (Err KeyError).

(** ** [nx.all_simple_paths] *)

(** [nx.all_simple_paths(G, source, target)] of the current networkx
    ([_all_simple_edge_paths]; the repository pins no version). A
    [target] that is a node gives [targets = {target}]; any other string is
    read as an iterable of targets, [set(target)], its one-character
    strings. *)
Definition path_targets (g : Graph) (t : string) : list string :=
  if has_node g t then [t]
  else map (fun c => String c EmptyString) (list_ascii_of_string t).

(** The depth-first search from the dummy edge [(None, source)]: [path] is
    [current_path] without [None], [v] the node just reached. [v] is yielded
    when it is a target, then expanded while [len(current_path) - 1 <
    cutoff] (the fuel is [cutoff - len(path)]) and some target lies off
    the path; a child already on the path is skipped. *)
Fixpoint explore (fuel : nat) (g : Graph) (targets : list string)
    (path : list string) (v : string) : list (list string) :=
  let path' := app path [v] in
  app (if mem v targets then [path'] else [])
    match fuel with
    | O => []
    | S f =>
        if existsb (fun x => negb (mem x path')) targets then
          flat_map (fun w => if mem w path' then []
                             else explore f g targets path' w)
            (neighbors g v)
        else []
    end.

(** A source outside the graph raises [NodeNotFound]; the cutoff is
    [len(G) - 1]. With [source] among the targets the zero-hop path
    [[source]] comes first. (Earlier releases differ only there: [if source in
    targets: return _empty_generator()], and they visit several targets in
    set order.) *)
Definition all_simple_paths (g : Graph) (s t : string)
    : res (list (list string)) :=
  if negb (has_node g s) then Err NodeNotFound
  else
    let targets := path_targets g t in
    match targets with
    | [] => Ok []
    | _ => Ok (explore (length (graph_nodes g) - 1) g targets [] s)
    end.

(** ** Python's stable [list.sort(key=...)] *)

Definition Qltb (x y : Q) : bool :=
  match Qcompare x y with Lt => true | _ => false end.

Section Sort.
Context {A : Type} (key : A -> Q).

  (** Insert [x] after every element whose key is not greater. *)
Fixpoint insert_by (x : A) (l : list A) : list A :=
    match l with
    | [] => [x]
    | y :: l' => if Qltb (key x) (key y) then x :: y :: l'
                 else y :: insert_by x l'
    end.

Definition stable_sort (l : list A) : list A :=
    fold_left (fun acc x => insert_by x acc) l [].
End Sort.

(** ** Delay, reliability and score of a path *)

(** Consecutive node pairs [(path[i], path[i+1])]. *)
Fixpoint hops (p : list string) : list (string * string) :=
  match p with
  | u :: ((v :: _) as p') => (u, v) :: hops p'
  | _ => []
  end.

(** One term of the sum below. *)
Definition delay_step (g : Graph) (acc : res Q) (h : string * string) : res Q :=
  let* d := acc in
  let* a := edge_attr g (fst h) (snd h) in
  Ok (d + fst a).

(** [sum(G[path[i]][path[i+1]]["delay"] for i in range(len(path)-1))]. *)
Definition path_delay (g : Graph) (p : list string) : res Q :=
  fold_left (delay_step g) (hops p) (Ok 0).

(** [0.7] for a deep-space link (["M km"] in the distance), [0.9] otherwise. *)
Definition hop_reliability (dist : string) : Q :=
  if contains "M km" dist then 7 # 10 else 9 # 10.

Definition reliability_step (g : Graph) (acc : res Q) (h : string * string) : res Q :=
  let* r := acc in
  let* a := edge_attr g (fst h) (snd h) in
  Ok (r * hop_reliability (snd a)).

(** [reliability *= 0.7 or 0.9] over the hops of the path, from [1.0]. *)
Definition path_reliability (g : Graph) (p : list string) : res Q :=
  fold_left (reliability_step g) (hops p) (Ok 1).

(** The sort key [x[1] * (1/x[2])]. *)
Definition score (entry : list string * Q * Q) : Q :=
  let '(_, d, r) := entry in d * (1 / r).

Fixpoint map_res {A B} (f : A -> res B) (l : list A) : res (list B) :=
  match l with
  | [] => Ok []
  | x :: l' => let* y := f x in let* ys := map_res f l' in Ok (y :: ys)
  end.

Definition path_entry (g : Graph) (p : list string) : res (list string * Q * Q) :=
  let* d := path_delay g p in
  let* r := path_reliability g p in
  Ok (p, d, r).

(** A [DTNRoutingAlgorithm] object: [self.network_graph] and
    [self.disrupted_links] ([self.node_buffers] is never read). *)
Record DTNRoutingAlgorithm := mkRouting {
  network_graph : Graph;
  routing_disrupted_links : list (string * string)
}.

(** [DTNRoutingAlgorithm.get_alternative_paths]: every exception is caught
    and turned into [[]]. [max_paths] is a non-negative slice bound. *)
Definition get_alternative_paths (self : DTNRoutingAlgorithm) (s t : string)
    (max_paths : nat) : list (list string * Q) :=
  let g := network_graph self in
  match let* ps := all_simple_paths g s t in map_res (path_entry g) ps with
  | Ok entries =>
      map (fun e => let '(p, d, _) := e in (p, d))
          (firstn max_paths (stable_sort score entries))
  | _ => []
  end.

(** The rank of a path under the key of [get_alternative_paths]:
    delay times inverse reliability. *)
Definition path_score (g : Graph) (p : list string) : Q :=
  match path_delay g p, path_reliability g p with
  | Ok d, Ok r => d * (1 / r)
  | _, _ => 0
  end.

(** ** [DTNRoutingAlgorithm.find_best_path]: the working graph and the edge
    weight *)

(** [G.has_edge(u, v)] on the undirected graph. *)
Definition has_edge (g : Graph) (u v : string) : bool :=
  existsb (fun l => joins l u v) g.

(** [G.remove_edge(u, v)]: the edge goes in both directions; every [add_edge]
    on the pair is one networkx edge. *)
Definition remove_edge (g : Graph) (u v : string) : Graph :=
  filter (fun l => negb (joins l u v)) g.

(** Lines 15-20: [working_graph = self.network_graph.copy()], then
    [for src, dst in current_disruptions: if working_graph.has_edge(src, dst):
    working_graph.remove_edge(src, dst)]. *)
Definition remove_disrupted (g : Graph) (current_disruptions : list (string * string))
    : Graph :=
  fold_left (fun wg e =>
    if has_edge wg (fst e) (snd e) then remove_edge wg (fst e) (snd e) else wg)
    current_disruptions g.

(** The pair [(u, v)] of [current_disruptions] names the undirected edge
    [x]-[y]. *)
Definition pair_match (u v x y : string) : bool :=
  (String.eqb u x && String.eqb v y) || (String.eqb u y && String.eqb v x).

(** [str.replace(old, new)]: every non-overlapping occurrence, from the left;
    an empty [old] puts [new] before every character and at the end. The
    fuel is the length of the subject. *)
Fixpoint replace_aux (fuel : nat) (old new s : string) : string :=
  match fuel with
  | O => s
  | S f =>
      match s with
      | EmptyString => EmptyString
      | String c s' =>
          if String.prefix old s
          then new ++ replace_aux f old new (substring (String.length old)
                                                (String.length s) s)
          else String c (replace_aux f old new s')
      end
  end.

Fixpoint interleave (new s : string) : string :=
  match s with
  | EmptyString => new
  | String c s' => new ++ String c (interleave new s')
  end.

Definition py_replace (s old new : string) : string :=
  match old with
  | EmptyString => interleave new s
  | _ => replace_aux (String.length s) old new s
  end.

(** The whitespace [float()] strips: ASCII [\t\n\v\f\r], the separators
    [\x1c]-[\x1f], the space, and (reading a character as a Latin-1 code
    point) [\x85] and [\xa0]. *)
Definition is_space (c : Ascii.ascii) : bool :=
  let n := Ascii.nat_of_ascii c in
  (Nat.leb 9 n && Nat.leb n 13) || (Nat.leb 28 n && Nat.leb n 32)
  || Nat.eqb n 133 || Nat.eqb n 160.

Fixpoint lstrip (s : string) : string :=
  match s with
  | String c s' => if is_space c then lstrip s' else s
  | EmptyString => EmptyString
  end.

Fixpoint rev_string (s : string) : string :=
  match s with
  | EmptyString => EmptyString
  | String c s' => rev_string s' ++ String c EmptyString
  end.

Definition py_strip (s : string) : string := rev_string (lstrip (rev_string (lstrip s))).

Definition is_digit (c : Ascii.ascii) : bool :=
  let n := Ascii.nat_of_ascii c in Nat.leb 48 n && Nat.leb n 57.

Definition digit_value (c : Ascii.ascii) : Z :=
  Z.of_nat (Ascii.nat_of_ascii c - 48).

(** [_Py_string_to_number_with_underscores]: an underscore must follow a
    digit and precede a digit; the underscores are then dropped. [prev] is
    the previous character ([None] at the start). *)
Fixpoint drop_underscores (prev : option Ascii.ascii) (s : string) : option string :=
  let after_us := match prev with Some p => Ascii.eqb p "_"%char | None => false end in
  let after_digit := match prev with Some p => is_digit p | None => false end in
  match s with
  | EmptyString => if after_us then None else Some EmptyString
  | String c s' =>
      if Ascii.eqb c "_"%char then
        (if after_digit then drop_underscores (Some c) s' else None)
      else if after_us && negb (is_digit c) then None
      else option_map (String c) (drop_underscores (Some c) s')
  end.

(** An optional leading sign: [true] for [-]. *)
Definition split_sign (s : string) : bool * string :=
  match s with
  | String c r =>
      if Ascii.eqb c "-"%char then (true, r)
      else if Ascii.eqb c "+"%char then (false, r)
      else (false, s)
  | EmptyString => (false, EmptyString)
  end.

(** A Python float: finite, infinite (the flag is the sign: [true] for
    negative) or not a number. *)
Inductive pyfloat : Type :=
| Fin (q : Q)
| Inf (neg : bool)
| NaN.

Fixpoint lower (s : string) : string :=
  match s with
  | EmptyString => EmptyString
  | String c s' =>
      let n := Ascii.nat_of_ascii c in
      String (if Nat.leb 65 n && Nat.leb n 90 then Ascii.ascii_of_nat (n + 32) else c)
             (lower s')
  end.

(** [_Py_parse_inf_or_nan], after the sign: the whole rest must be one of
    the words, in any case. *)
Definition parse_inf_or_nan (neg : bool) (s : string) : option pyfloat :=
  let w := lower s in
  if String.eqb w "inf" || String.eqb w "infinity" then Some (Inf neg)
  else if String.eqb w "nan" then Some NaN
  else None.

Fixpoint take_digits (s : string) : string * string :=
  match s with
  | String c s' =>
      if is_digit c then let '(d, r) := take_digits s' in (String c d, r)
      else (EmptyString, s)
  | EmptyString => (EmptyString, EmptyString)
  end.

Definition digits_value (d : string) : Z :=
  fold_left (fun acc c => acc * 10 + digit_value c)%Z (list_ascii_of_string d) 0%Z.

(** The exponent part [e[+-]digits]: [None] (and nothing consumed) unless
    at least one digit follows. *)
Definition parse_exponent (s : string) : option (Z * string) :=
  match s with
  | String e s' =>
      if Ascii.eqb e "e"%char || Ascii.eqb e "E"%char then
        let '(neg, s'') := split_sign s' in
        let '(d, r) := take_digits s'' in
        match d with
        | EmptyString => None
        | _ => Some ((if neg then - digits_value d else digits_value d)%Z, r)
        end
      else None
  | EmptyString => None
  end.

(** The fraction part: the digits after a [.], if there is one. *)
Definition take_fraction (s : string) : string * string :=
  match s with
  | String c r => if Ascii.eqb c "."%char then take_digits r else (EmptyString, s)
  | EmptyString => (EmptyString, EmptyString)
  end.

(** The decimal form read by [PyOS_string_to_double]: digits, an optional
    fraction, at least one digit in all, an optional exponent, and nothing
    after it. The value is the exact decimal (CPython rounds it to the
    nearest double). *)
Definition parse_decimal (neg : bool) (s : string) : option pyfloat :=
  let '(d1, r1) := take_digits s in
  let '(d2, r2) := take_fraction r1 in
  if String.eqb (d1 ++ d2) "" then None
  else
    let '(e, r3) := match parse_exponent r2 with
                    | Some er => er
                    | None => (0%Z, r2)
                    end in
    match r3 with
    | EmptyString =>
        let m := inject_Z (digits_value (d1 ++ d2)) in
        let v := m * Qpower 10 (e - Z.of_nat (String.length d2)) in
        Some (Fin (if neg then - v else v))
    | _ => None
    end.

(** [float(s)] for a [str]: [ValueError] when [s] is not a float literal. *)
Definition py_float (s : string) : res pyfloat :=
  match drop_underscores None (py_strip s) with
  | None => Err ValueError
  | Some t =>
      let '(neg, t') := split_sign t in
      match parse_inf_or_nan neg t' with
      | Some f => Ok f
      | None =>
          match parse_decimal neg t' with
          | Some f => Ok f
          | None => Err ValueError
          end
      end
  end.

(** [d * (1 + x)] for a number [d] and a float [x]. *)
Definition pf_scale_succ (d : Q) (x : pyfloat) : pyfloat :=
  match x with
  | Fin q => Fin (d * (1 + q))
  | Inf neg =>
      if Qeq_bool d 0 then NaN else Inf (xorb neg (Qltb d 0))
  | NaN => NaN
  end.

(** The weight of line 25:
    [lambda u, v, d: d['delay'] * (1 + float(d['distance']
       .replace('M km', '000000').replace(' km', '')))]. *)
Definition best_path_weight (link_delay : Q) (distance : string) : res pyfloat :=
  let* x := py_float (py_replace (py_replace distance "M km" "000000") " km" "") in
  Ok (pf_scale_succ link_delay x).

(** ** [src/src/dtn_core.py] *)

Module DtnCore.

  (** The fields of [datetime] that [==] compares (no time zone). *)
Record DateTime := mkDateTime {
    year : nat; month : nat; day : nat;
    hour : nat; minute : nat; second : nat; microsecond : nat
  }.

Definition digit (n : nat) : string :=
    String (Ascii.ascii_of_nat (48 + n)) EmptyString.

  (** A two-digit zero-padded field of [strftime]. *)
Definition pad2 (n : nat) : string := digit (n / 10) ++ digit (n mod 10).

  (** [ts.strftime('%H%M%S')]. *)
Definition strftime_HMS (ts : DateTime) : string :=
    pad2 (hour ts) ++ pad2 (minute ts) ++ pad2 (second ts).

Record Bundle := mkBundle {
    source : string;
    destination : string;
    payload : string;
    creation_timestamp : DateTime;
    id : string;
    priority : Z
  }.

  (** [Bundle(source, destination, payload, creation_timestamp, id, priority)]
      followed by [__post_init__]; [now] is the value [datetime.now()]
      returns there. *)
Definition make_bundle (src dst pl : string) (ts : option DateTime)
      (bid : option string) (prio : Z) (now : DateTime) : Bundle :=
    let ts := match ts with Some t => t | None => now end in
    let bid := match bid with
               | Some i => i
               | None => "bundle_" ++ strftime_HMS ts
               end in
    mkBundle src dst pl ts bid prio.

Definition datetime_eqb (a b : DateTime) : bool :=
    Nat.eqb (year a) (year b) && Nat.eqb (month a) (month b)
    && Nat.eqb (day a) (day b) && Nat.eqb (hour a) (hour b)
    && Nat.eqb (minute a) (minute b) && Nat.eqb (second a) (second b)
    && Nat.eqb (microsecond a) (microsecond b).

  (** The [__eq__] a [@dataclass] generates: all fields, in order. *)
Definition bundle_eqb (a b : Bundle) : bool :=
    String.eqb (source a) (source b)
    && String.eqb (destination a) (destination b)
    && String.eqb (payload a) (payload b)
    && datetime_eqb (creation_timestamp a) (creation_timestamp b)
    && String.eqb (id a) (id b)
    && Z.eqb (priority a) (priority b).

  (** Python's [b in l] on a list of bundles. *)
Definition bundle_in (b : Bundle) (l : list Bundle) : bool :=
    existsb (bundle_eqb b) l.

Record DTNNode := mkDTNNode {
    node_id : string;
    buffer : list Bundle;
    max_buffer_size : Z
  }.

  (** [DTNNode(node_id)]: [max_buffer_size = 1024 * 1024]. *)
Definition new_node (nid : string) : DTNNode := mkDTNNode nid [] (1024 * 1024).

  (** [DTNNode.store_bundle]: the returned boolean and the node afterwards. *)
Definition store_bundle (n : DTNNode) (b : Bundle) : bool * DTNNode :=
    if Z.ltb (Z.of_nat (length (buffer n)) * 1024) (max_buffer_size n) then
      (true, mkDTNNode (node_id n) (app (buffer n) [b]) (max_buffer_size n))
    else (false, n).

(** [DTNNode.forward_bundle]: [self.buffer.pop(0)], or [None] when the
    buffer is empty. *)
Definition forward_bundle (n : DTNNode) : option Bundle * DTNNode :=
  match buffer n with
  | [] => (None, n)
  | b :: rest => (Some b, mkDTNNode (node_id n) rest (max_buffer_size n))
  end.

(** [[node.store_bundle(b) for b in l]]: the results of the calls, in
    order, and the node afterwards. *)
Fixpoint store_all (n : DTNNode) (l : list Bundle) : list bool * DTNNode :=
  match l with
  | [] => ([], n)
  | b :: l' =>
      let '(ok, n1) := store_bundle n b in
      let '(oks, n2) := store_all n1 l' in
      (ok :: oks, n2)
  end.

End DtnCore.

(** ** [src/src/network_simulator.py]: [simulate_transmission] *)

Module Simulator.
Import DtnCore.

(** [self.buffer]: a dict from node to list of bundles, in key insertion
    order. *)
Definition Buffer := list (string * list Bundle).

(** [self.buffer.get(node, [])]. *)
Fixpoint buf_get (buf : Buffer) (node : string) : list Bundle :=
  match buf with
  | [] => []
  | (k, l) :: buf' => if String.eqb k node then l else buf_get buf' node
  end.

Definition buf_has (buf : Buffer) (node : string) : bool :=
  existsb (fun e => String.eqb (fst e) node) buf.

(** [self.buffer[node] = l]: in place for a present key, appended otherwise. *)
Fixpoint buf_set (buf : Buffer) (node : string) (l : list Bundle) : Buffer :=
  match buf with
  | [] => [(node, l)]
  | (k, l') :: buf' =>
      if String.eqb k node then (k, l) :: buf' else (k, l') :: buf_set buf' node l
  end.

(** [l.remove(b)]: drops the first equal bundle, [ValueError] if none. *)
Fixpoint list_remove (b : Bundle) (l : list Bundle) : res (list Bundle) :=
  match l with
  | [] => Err ValueError
  | x :: l' =>
      if bundle_eqb b x then Ok l'
      else let* r := list_remove b l' in Ok (x :: r)
  end.

Definition Link2 := (string * string)%type.

Definition link_eqb (a b : Link2) : bool :=
  String.eqb (fst a) (fst b) && String.eqb (snd a) (snd b).

(** The set [disrupted_links]. *)
Definition set_add (x : Link2) (s : list Link2) : list Link2 :=
  if existsb (link_eqb x) s then s else app s [x].

(** [set.remove]: [KeyError] if absent. *)
Definition set_remove (x : Link2) (s : list Link2) : res (list Link2) :=
  if existsb (link_eqb x) s then Ok (filter (fun y => negb (link_eqb x y)) s)
  else Err KeyError.

(** Lines 141-145: [if bundle not in self.buffer.get(node, []):] create the
    list if needed and append; [None] when nothing is stored. *)
Definition buffer_store (b : Bundle) (node : string) (buf : Buffer) : option Buffer :=
  if negb (bundle_in b (buf_get buf node)) then
    Some (buf_set buf node (app (buf_get buf node) [b]))
  else None.

(** [max_retries = 3] (line 160; [max_retries_per_link] is never read). *)
Definition max_retries : nat := 3.

Section Engine.
  (** The random generator behind [random.random()]. *)
Context {Gen : Type} (random : Gen -> Q * Gen).
  (** [self.network_graph] and the two configured rates. *)
Context (g : Graph) (error_rate disruption_rate : Q).

  (** The local variables of the method that outlive one hop, and
      [self.buffer]. [recoveries] is [len(recovery_times)]. *)
Record SimState := mkSim {
    rng : Gen;
    disrupted_links : list Link2;
    total_delay : Q;
    retransmissions : nat;
    buffer : Buffer;
    recoveries : nat;
    disruptions_handled : nat;
    stored_bundles_count : nat
  }.

  (** One call of [random.random()]. *)
Definition draw (st : SimState) : Q * SimState :=
    let '(r, gen) := random (rng st) in
    (r, mkSim gen (disrupted_links st) (total_delay st) (retransmissions st)
              (buffer st) (recoveries st) (disruptions_handled st)
              (stored_bundles_count st)).

  (** Lines 162-193: [while retry_count < max_retries]; [k] iterations are
      left. Returns [retry_count] after the loop. *)
Fixpoint recovery_loop (k retry_count : nat) (b : Bundle) (cur nxt : string)
      (st : SimState) : res (nat * SimState) :=
    match k with
    | O => Ok (retry_count, st)
    | S k' =>
        let '(r, st) := draw st in
        if Qltb ((error_rate + disruption_rate) / 2) r then
          let* buf :=
            (if buf_has (buffer st) cur then
               let* l := list_remove b (buf_get (buffer st) cur) in
               Ok (buf_set (buffer st) cur l)
             else Ok (buffer st)) in
          let* dl := set_remove (cur, nxt) (disrupted_links st) in
          Ok (retry_count,
              mkSim (rng st) dl (total_delay st) (retransmissions st) buf
                    (S (recoveries st)) (disruptions_handled st)
                    (stored_bundles_count st))
        else
          recovery_loop k' (S retry_count) b cur nxt
            (mkSim (rng st) (disrupted_links st) (total_delay st)
                   (S (retransmissions st)) (buffer st) (recoveries st)
                   (disruptions_handled st) (stored_bundles_count st))
    end.

  (** Lines 133-203: the entry check of a hop. [true] means the
      [break] of line 203 (retries exhausted). *)
Definition link_check (b : Bundle) (cur nxt : string) (st : SimState)
      : res (bool * SimState) :=
    let '(r1, st) := draw st in
    let '(r2, st) := draw st in
    let is_error := Qltb r1 error_rate in
    let is_disrupted := Qltb r2 disruption_rate in
    if is_error || is_disrupted then
      let st := mkSim (rng st) (set_add (cur, nxt) (disrupted_links st))
                      (total_delay st) (retransmissions st) (buffer st)
                      (recoveries st) (S (disruptions_handled st))
                      (stored_bundles_count st) in
      let st :=
        match buffer_store b cur (buffer st) with
        | Some buf =>
            mkSim (rng st) (disrupted_links st) (total_delay st)
                  (retransmissions st) buf (recoveries st)
                  (disruptions_handled st) (S (stored_bundles_count st))
        | None => st
        end in
      let* rs := recovery_loop max_retries 0 b cur nxt st in
      let '(retry_count, st) := rs in
      Ok (Nat.eqb retry_count max_retries, st)
    else Ok (false, st).

  (** Lines 206-226: the distance-based check and the transmission.
      [false] is the [continue] of line 223. *)
Definition transmit (cur nxt : string) (st : SimState) : res (bool * SimState) :=
    let* a := edge_attr g cur nxt in
    let '(link_delay, dist) := a in
    let distance_factor := if contains "km" dist then 1 else 3 # 2 in
    let '(r3, st) := draw st in
    if Qltb r3 (error_rate * distance_factor) then
      Ok (false, mkSim (rng st) (set_add (cur, nxt) (disrupted_links st))
                       (total_delay st) (retransmissions st) (buffer st)
                       (recoveries st) (disruptions_handled st)
                       (stored_bundles_count st))
    else
      Ok (true, mkSim (rng st) (disrupted_links st) (total_delay st + link_delay)
                      (retransmissions st) (buffer st) (recoveries st)
                      (disruptions_handled st) (stored_bundles_count st)).

  (** How the hop loop of lines 116-262 is left. *)
Inductive hop_exit := Delivered | Exhausted | PathEnd.

  (** [while i < len(current_path) - 1]. *)
Fixpoint hop_loop (fuel : nat) (b : Bundle) (path : list string) (i : nat)
      (st : SimState) : res (hop_exit * SimState) :=
    match fuel with
    | O => NoFuel
    | S f =>
        if Nat.ltb i (length path - 1) then
          let cur := nth i path "" in
          let nxt := nth (S i) path "" in
          let* c := link_check b cur nxt st in
          let '(brk, st) := c in
          if brk then Ok (Exhausted, st)
          else
            let* t := transmit cur nxt st in
            let '(ok, st) := t in
            if ok then
              if Nat.eqb (S i) (length path - 1) then Ok (Delivered, st)
              else hop_loop f b path (S i) st
            else hop_loop f b path i st
        else Ok (PathEnd, st)
    end.

  (** [for current_path, estimated_delay in paths_with_delays]. After a
      delivery the [for] statement still binds the next entry before the
      [break] of line 107, so that entry is the one reported, or the
      delivering entry when it was the last. *)
Fixpoint for_paths (fuel : nat) (b : Bundle) (ps : list (list string * Q))
      (st : SimState) : res (option (list string * Q) * SimState) :=
    match ps with
    | [] => Ok (None, st)
    | (p, d) :: ps' =>
        let* h := hop_loop fuel b p 0 st in
        let '(ex, st) := h in
        match ex with
        | Delivered => Ok (Some (hd (p, d) ps'), st)
        | _ => for_paths fuel b ps' st
        end
    end.

  (** [while not successful_delivery]. *)
Fixpoint outer_loop (fuel : nat) (b : Bundle) (ps : list (list string * Q))
      (st : SimState) : res ((list string * Q) * SimState) :=
    match fuel with
    | O => NoFuel
    | S f =>
        let* r := for_paths f b ps st in
        let '(d, st) := r in
        match d with
        | Some pd => Ok (pd, st)
        | None => outer_loop f b ps st
        end
    end.
End Engine.

(** The [final_stats] dictionary (without [avg_recovery_time]). *)
Record Stats := mkStats {
  bundle_id : string;
  st_total_delay : Q;
  total_retransmissions : nat;
  final_path : list string;
  disruptions : nat;
  st_disrupted_links : list Link2;
  stored_bundles : nat;
  max_stored_bundles : nat;
  paths_attempted : nat;
  total_available_paths : nat;
  buffer_states : list (string * nat);
  total_storage_events : nat;
  recovery_attempts : nat;
  successful_recoveries : nat
}.

Fixpoint path_eqb (p q : list string) : bool :=
  match p, q with
  | [], [] => true
  | x :: p', y :: q' => String.eqb x y && path_eqb p' q'
  | _, _ => false
  end.

(** [paths_with_delays.index(entry)]: Python [==] on [(list, number)]. *)
Fixpoint index_of (e : list string * Q) (l : list (list string * Q)) : nat :=
  match l with
  | [] => 0
  | x :: l' =>
      if path_eqb (fst x) (fst e) && Qeq_bool (snd x) (snd e)
      then 0 else S (index_of e l')
  end.

Definition max_list (l : list nat) : nat := fold_left Nat.max l 0%nat.

Section Run.
Context {Gen : Type} (random : Gen -> Q * Gen).
Context (g : Graph) (error_rate disruption_rate : Q).

  (** Lines 78-85: candidate paths with their delays, sorted by delay. *)
Definition paths_with_delays (source destination : string)
      : res (list (list string * Q)) :=
    let* all_paths := all_simple_paths g source destination in
    let* entries := map_res (fun p => let* d := path_delay g p in Ok (p, d))
                            all_paths in
    Ok (stable_sort snd entries).

  (** [simulate_transmission(message, source, destination)] on a simulator
      whose [self.buffer] is [buffer0]; [now_id] and [now_ts] are the two
      [datetime.now()] calls of lines 68 and 74. Returns [final_stats] and
      [self.buffer] afterwards. *)
Definition simulate_transmission (fuel : nat) (message source destination : string)
      (now_id now_ts : DateTime) (buffer0 : Buffer) (rng0 : Gen)
      : res (Stats * Buffer) :=
    let bid := "bundle_" ++ strftime_HMS now_id in
    let bundle := make_bundle source destination message (Some now_ts)
                              (Some bid) 1 now_ts in
    let* pwd := paths_with_delays source destination in
    let st0 := mkSim rng0 [] 0 0%nat buffer0 0%nat 0%nat 0%nat in
    let* r := outer_loop random g error_rate disruption_rate fuel bundle pwd st0 in
    let '((current_path, estimated_delay), st) := r in
    let buf := buffer st in
    Ok (mkStats bid (total_delay st) (retransmissions st) current_path
                (disruptions_handled st) (disrupted_links st)
                (stored_bundles_count st)
                (max_list (map (fun e => length (snd e)) buf))
                (S (index_of (current_path, estimated_delay) pwd))
                (length pwd)
                (map (fun e => (fst e, length (snd e))) buf)
                (stored_bundles_count st) (retransmissions st) (recoveries st),
        buf).
End Run.
End Simulator.

(** ** Concrete topologies and generators *)

Module Scenarios.
Import DtnCore Simulator.

(** [{A-B delay=10 distance="1 km", B-C delay=20 distance="2 M km"}]. *)
Definition topo_ABC : Graph :=
  [mkLink "A" "B" 10 "1 km"; mkLink "B" "C" 20 "2 M km"].

(** A generator replaying a list of draws, then [0.99] forever. *)
Definition replay (l : list Q) : Q * list Q :=
  match l with
  | [] => (99 # 100, [])
  | x :: l' => (x, l')
  end.

Definition t0 : DateTime := mkDateTime 2024 1 1 12 30 5 0.

(** A generator that always draws [0.5]. *)
Definition half (u : unit) : Q * unit := (1 # 2, u).


(** The bundle [simulate_transmission("m", s, d)] builds at [t0]. *)
Definition bundle_at (s d : string) : Bundle :=
  make_bundle s d "m" (Some t0) (Some ("bundle_" ++ strftime_HMS t0)) 1 t0.


(** Two disjoint routes from A to C. *)
Definition topo_two : Graph :=
  [mkLink "A" "B" 1 "1 km"; mkLink "B" "C" 1 "1 km";
   mkLink "A" "D" 2 "1 km"; mkLink "D" "C" 2 "1 km"].


(** The state of [simulate_transmission] before its first hop. *)
Definition start_state {Gen} (r : Gen) : @SimState Gen :=
  mkSim r [] 0 0%nat [] 0%nat 0%nat 0%nat.
End Scenarios.

(** * Properties *)

From Stdlib Require Import Sorting.Sorted.

Module Facts.
Import DtnCore Simulator.
Local Open Scope Q_scope.

Lemma Qltb_true x y : Qltb x y = true <-> x < y.
Proof.
  unfold Qltb; rewrite Qlt_alt; destruct (x ?= y); split; congruence.
Qed.

Lemma Qltb_false x y : Qltb x y = false -> y <= x.
Proof.
  intros H; apply Qnot_lt_le; intros Hlt.
  apply Qltb_true in Hlt; congruence.
Qed.

Section SortFacts.
Context {A : Type} (key : A -> Q).
Let R := fun a b => key a <= key b.

Lemma insert_by_sorted x l : Sorted R l -> Sorted R (insert_by key x l).
  Proof.
    induction 1 as [|y l Hs IH Hd]; simpl.
    - repeat constructor.
    - destruct (Qltb (key x) (key y)) eqn:E.
      + apply Qltb_true in E. constructor; [constructor; auto|].
        constructor; unfold R; apply Qlt_le_weak; exact E.
      + apply Qltb_false in E. constructor; [exact IH|].
        destruct l as [|z l']; simpl.
        * constructor; exact E.
        * inversion Hd; subst.
          destruct (Qltb (key x) (key z)); constructor; auto.
  Qed.

Lemma stable_sort_sorted l : Sorted R (stable_sort key l).
  Proof.
    unfold stable_sort.
    assert (H : forall acc, Sorted R acc ->
                Sorted R (fold_left (fun acc x => insert_by key x acc) l acc)).
    { induction l as [|x l IH]; simpl; intros acc Hacc; auto.
      apply IH, insert_by_sorted, Hacc. }
    apply H; constructor.
  Qed.

Lemma insert_by_Forall (P : A -> Prop) x l :
    P x -> Forall P l -> Forall P (insert_by key x l).
  Proof.
    intros Hx; induction 1; simpl; [constructor; auto|].
    destruct (Qltb (key x) (key x0)); constructor; auto.
  Qed.

Lemma stable_sort_Forall (P : A -> Prop) l :
    Forall P l -> Forall P (stable_sort key l).
  Proof.
    unfold stable_sort.
    assert (H : forall acc, Forall P acc -> Forall P l ->
                Forall P (fold_left (fun acc x => insert_by key x acc) l acc)).
    { induction l as [|x l IH]; simpl; intros acc Hacc Hl; auto.
      inversion Hl; subst. apply IH; auto. apply insert_by_Forall; auto. }
    intros; apply H; auto.
  Qed.

Lemma insert_by_length x l : length (insert_by key x l) = S (length l).
  Proof.
    induction l as [|y l IH]; simpl; auto.
    destruct (Qltb (key x) (key y)); simpl; auto.
  Qed.
End SortFacts.

Lemma Sorted_firstn {A} (R : A -> A -> Prop) k l :
  Sorted R l -> Sorted R (firstn k l).
Proof.
  revert l; induction k as [|k IH]; intros l Hs; simpl; [constructor|].
  destruct l as [|x l]; [constructor|].
  inversion Hs as [|? ? Hs' Hd]; subst. constructor; auto.
  destruct k, l; simpl; try constructor.
  inversion Hd; auto.
Qed.

Lemma Sorted_map {A B} (P : A -> Prop) (R1 : A -> A -> Prop) (R2 : B -> B -> Prop)
    (f : A -> B) l :
  Sorted R1 l -> Forall P l ->
  (forall a b, P a -> P b -> R1 a b -> R2 (f a) (f b)) ->
  Sorted R2 (map f l).
Proof.
  intros Hs HP HR; induction Hs as [|a l Hs IH Hd]; simpl; constructor.
  - inversion HP; auto.
  - inversion HP as [|? ? Ha Hl]; subst.
    destruct Hd as [|b l' Hab]; simpl; constructor.
    inversion Hl; subst; auto.
Qed.

Lemma Forall_firstn {A} (P : A -> Prop) k l : Forall P l -> Forall P (firstn k l).
Proof.
  revert l; induction k; intros [|x l] H; simpl; auto.
  inversion H; subst; constructor; auto.
Qed.

Lemma map_res_Forall {A B} (f : A -> res B) (P : A -> B -> Prop) l ys :
  map_res f l = Ok ys -> (forall x y, f x = Ok y -> P x y) ->
  Forall (fun y => exists x, In x l /\ P x y) ys.
Proof.
  revert ys; induction l as [|x l IH]; simpl; intros ys H HP.
  - injection H as <-; constructor.
  - destruct (f x) eqn:E; simpl in H; try discriminate.
    destruct (map_res f l) eqn:E2; simpl in H; try discriminate.
    injection H as <-. constructor.
    + exists x; split; auto.
    + eapply Forall_impl; [|apply IH; auto].
      intros b [x' [Hin Hp]]; exists x'; split; auto.
Qed.

End Facts.

Module Routing.
Import DtnCore Simulator Facts Scenarios.
Local Open Scope Q_scope.

Lemma entries_score g ps entries :
  map_res (path_entry g) ps = Ok entries ->
  Forall (fun e => let '(p, _, _) := e in path_score g p = score e) entries.
Proof.
  intros H.
  eapply Forall_impl; [|eapply map_res_Forall with
    (P := fun p e => let '(p', _, _) := e in path_score g p' = score e); eauto].
  - intros e [x [_ Hx]]; exact Hx.
  - intros p [[p' d] r] Hp. unfold path_entry in Hp.
    destruct (path_delay g p) eqn:Ed; simpl in Hp; try discriminate.
    destruct (path_reliability g p) eqn:Er; simpl in Hp; try discriminate.
    injection Hp as -> -> ->. unfold path_score; rewrite Ed, Er; reflexivity.
Qed.

(** The list [get_alternative_paths] returns is sorted by path score. *)
Lemma alternatives_sorted self s t k :
  Sorted (fun a b => path_score (network_graph self) (fst a)
                     <= path_score (network_graph self) (fst b))
         (get_alternative_paths self s t k).
Proof.
  unfold get_alternative_paths. set (g := network_graph self).
  destruct (all_simple_paths g s t) as [ps| |] eqn:Ep; simpl; try constructor.
  destruct (map_res (path_entry g) ps) as [entries| |] eqn:Ee; try constructor.
  apply entries_score in Ee.
  apply Sorted_map with
    (P := fun e => let '(p, _, _) := e in path_score g p = score e)
    (R1 := fun a b => score a <= score b).
  - apply Sorted_firstn, stable_sort_sorted.
  - apply Forall_firstn, stable_sort_Forall, Ee.
  - intros [[pa da] ra] [[pb db] rb] Ha Hb Hab; simpl.
    rewrite Ha, Hb; exact Hab.
Qed.

(** C9: [get_alternative_paths] ranks paths ascending by the path score,
    delay times the inverse of the reliability; the reliability is the
    product over hops of 0.9 for a near link and 0.7 for an ["M km"] link
    (on the A-B-C topology: 30 * 1/(0.9 * 0.7)). *)
Theorem get_alternative_paths_ranked_by_score self s t k :
  Sorted (fun a b => path_score (network_graph self) (fst a)
                     <= path_score (network_graph self) (fst b))
         (get_alternative_paths self s t k)
  /\ path_score topo_ABC ["A"; "B"; "C"] = 30 * (1 / ((9 # 10) * (7 # 10))).
Proof.
  split; [apply alternatives_sorted|reflexivity].
Qed.

End Routing.

Module Paths.
Import Facts.
Local Open Scope list_scope.

(** Every consecutive pair of [p] is an edge of [g]. *)
Definition edges_ok (g : Graph) (p : list string) : Prop :=
  forall h, In h (hops p) -> exists a, edge_attr g (fst h) (snd h) = Ok a.

Lemma mem_In x l : mem x l = true -> In x l.
Proof.
  induction l as [|y l IH]; simpl; [discriminate|].
  intros H; apply orb_true_iff in H as [H|H].
  - apply String.eqb_eq in H; auto.
  - auto.
Qed.

Lemma In_mem x l : In x l -> mem x l = true.
Proof.
  induction l as [|y l IH]; simpl; [tauto|].
  intros [<-|H]; apply orb_true_iff; [left; apply String.eqb_refl|right; auto].
Qed.

Lemma neighbors_fold_joins g acc u v :
  In v (fold_left (fun acc l =>
    let acc := if String.eqb (source l) u then
                 (if mem (target l) acc then acc else app acc [target l])
               else acc in
    if String.eqb (target l) u then
      (if mem (source l) acc then acc else app acc [source l])
    else acc) g acc) ->
  In v acc \/ exists l, In l g /\ joins l u v = true.
Proof.
  revert acc; induction g as [|l g IH]; simpl; intros acc H; auto.
  apply IH in H as [H|[l' [Hl' Hj]]]; [|right; exists l'; auto].
  unfold joins.
  destruct (String.eqb (target l) u) eqn:Et;
    [destruct (mem (source l) _) eqn:Em|];
    try (apply in_app_or in H as [H|[H|[]]]; [|subst v; right; exists l; split; auto;
         rewrite String.eqb_refl, Et; apply orb_true_r]);
    (destruct (String.eqb (source l) u) eqn:Es;
       [destruct (mem (target l) acc) eqn:Em2|]; auto;
     apply in_app_or in H as [H|[H|[]]]; auto; subst v; right; exists l;
     split; auto; rewrite Es, String.eqb_refl; reflexivity).
Qed.

Lemma edge_attr_fold_ok g acc u v :
  ((exists a, acc = Ok a) \/ exists l, In l g /\ joins l u v = true) ->
  exists a, fold_left (fun acc l =>
    if joins l u v then Ok (delay l, distance l) else acc) g acc = Ok a.
Proof.
  revert acc; induction g as [|l g IH]; simpl; intros acc H.
  - destruct H as [H|[l [[] _]]]; exact H.
  - apply IH. destruct (joins l u v) eqn:J; [left; eauto|].
    destruct H as [H|[l' [[<-|Hin] Hj]]]; [left; auto|congruence|right; eauto].
Qed.

Lemma neighbors_edge g u v :
  In v (neighbors g u) -> exists a, edge_attr g u v = Ok a.
Proof.
  intros H; apply neighbors_fold_joins in H as [[]|Hj].
  apply edge_attr_fold_ok; right; exact Hj.
Qed.

Lemma hops_snoc l x y : hops (l ++ [x; y]) = hops (l ++ [x]) ++ [(x, y)].
Proof.
  induction l as [|a l IH]; simpl; auto.
  destruct l as [|b l]; simpl in *; auto. rewrite IH; reflexivity.
Qed.

Lemma edges_ok_snoc g l u v :
  edges_ok g (l ++ [u]) -> (exists a, edge_attr g u v = Ok a) ->
  edges_ok g (l ++ [u; v]).
Proof.
  intros H Huv h Hh; rewrite hops_snoc in Hh.
  apply in_app_or in Hh as [Hh|[<-|[]]]; auto.
Qed.

(** Every path the search yields extends the current one, ends at a
    target and walks along edges. *)
Lemma explore_spec f g T path v p :
  In p (explore f g T path v) -> edges_ok g (path ++ [v]) ->
  edges_ok g p /\ (exists q, p = path ++ v :: q) /\ In (last p "") T.
Proof.
  revert path v; induction f as [|f IH]; intros path v Hp Hok;
    cbn [explore] in Hp; apply in_app_or in Hp as [Hp|Hp].
  1,3: destruct (mem v T) eqn:Ev; [|destruct Hp];
       destruct Hp as [<-|[]]; split; [exact Hok|split];
       [exists []; reflexivity|rewrite last_last; apply mem_In; exact Ev].
  - destruct Hp.
  - destruct (existsb _ T); [|destruct Hp].
    apply in_flat_map in Hp as [w [Hw Hp]].
    destruct (mem w (path ++ [v])); [destruct Hp|].
    apply IH in Hp as [Hok2 [[q ->] Hl]].
    + split; [exact Hok2|split; [|exact Hl]].
      exists (w :: q); rewrite <- app_assoc; reflexivity.
    + rewrite <- app_assoc; simpl.
      exact (edges_ok_snoc g path v w Hok (neighbors_edge g v w Hw)).
Qed.

(** The candidate paths from [s]: each starts at [s], walks along edges and
    ends at one of the targets. *)
Lemma all_simple_paths_spec g s t ps p :
  all_simple_paths g s t = Ok ps -> In p ps ->
  edges_ok g p /\ (exists q, p = s :: q) /\ In (last p "") (path_targets g t).
Proof.
  unfold all_simple_paths; intros Hps Hp.
  destruct (negb (has_node g s)); [discriminate|].
  destruct (path_targets g t) as [|x xs] eqn:ET; injection Hps as <-;
    [destruct Hp|].
  rewrite <- ET in Hp |- *.
  apply (explore_spec _ g _ [] s p Hp). intros h [].
Qed.

Lemma path_targets_node g t : has_node g t = true -> path_targets g t = [t].
Proof. unfold path_targets; intros ->; reflexivity. Qed.


End Paths.

Module ZeroRates.
Import DtnCore Simulator Facts Paths.
Local Open Scope list_scope.
Local Open Scope Q_scope.

Section Clean.
Context {Gen : Type} (random : Gen -> Q * Gen).
Hypothesis Hnn : forall x, 0 <= fst (random x).
Context (g : Graph).





End Clean.


Lemma hops_skipn p i :
  (i < length p - 1)%nat ->
  skipn i (hops p) = (nth i p "", nth (S i) p "") :: skipn (S i) (hops p).
Proof.
  revert i; induction p as [|a p IH]; intros i Hi; simpl in Hi; [lia|].
  destruct p as [|b p]; simpl in Hi; [lia|].
  destruct i as [|i]; [reflexivity|].
  change (skipn (S i) (hops (a :: b :: p))) with (skipn i (hops (b :: p))).
  rewrite IH by (simpl; lia). reflexivity.
Qed.


Lemma in_skipn_in {A} (x : A) i l : In x (skipn i l) -> In x l.
Proof.
  intros H; rewrite <- (firstn_skipn i l); apply in_or_app; right; exact H.
Qed.


Lemma delay_fold_ok g l d0 :
  (forall h, In h l -> exists a, edge_attr g (fst h) (snd h) = Ok a) ->
  exists d, fold_left (delay_step g) l (Ok d0) = Ok d.
Proof.
  revert d0; induction l as [|h l IH]; intros d0 Hl; simpl; [eauto|].
  destruct (Hl h (or_introl eq_refl)) as [a Ha].
  rewrite Ha; cbn [bind].
  apply IH; intros h' Hh'; apply Hl; right; exact Hh'.
Qed.

Lemma delays_ok g ps :
  (forall p, In p ps -> edges_ok g p) ->
  exists entries,
    map_res (fun p => let* d := path_delay g p in Ok (p, d)) ps = Ok entries
    /\ length entries = length ps
    /\ Forall (fun e => In (fst e) ps /\ path_delay g (fst e) = Ok (snd e)) entries.
Proof.
  induction ps as [|p ps IH]; intros Hok; simpl.
  - exists []; repeat split; constructor.
  - destruct (delay_fold_ok g (hops p) 0 (Hok p (or_introl eq_refl))) as [d Hd].
    fold (path_delay g p) in Hd; rewrite Hd; cbn [bind].
    destruct IH as [es [Hes [Hlen Hall]]]; [intros q Hq; apply Hok; right; exact Hq|].
    rewrite Hes; cbn [bind]. exists ((p, d) :: es); split; [reflexivity|].
    split; [simpl; congruence|]. constructor; [split; [left|]; auto|].
    eapply Forall_impl; [|exact Hall]. intros e [He1 He2]; split; [right|]; auto.
Qed.

Lemma stable_sort_length {A} (key : A -> Q) l : length (stable_sort key l) = length l.
Proof.
  unfold stable_sort.
  assert (H : forall acc, length (fold_left (fun acc x => insert_by key x acc) l acc)
                          = (length acc + length l)%nat).
  { induction l as [|x l IH]; intros acc; simpl; [lia|].
    rewrite IH, insert_by_length; lia. }
  rewrite H; reflexivity.
Qed.


End ZeroRates.

Module Loops.
Import DtnCore Simulator Facts Paths Scenarios.
Local Open Scope list_scope.
Local Open Scope Q_scope.

Lemma outer_loop_step {Gen} (random : Gen -> Q * Gen) g er dr f b ps st :
  outer_loop random g er dr (S f) b ps st
  = let* r := for_paths random g er dr f b ps st in
    let '(d, st) := r in
    match d with
    | Some pd => Ok (pd, st)
    | None => outer_loop random g er dr f b ps st
    end.
Proof. reflexivity. Qed.





Lemma for_paths_in {Gen} (random : Gen -> Q * Gen) g er dr fuel b ps st pd st' :
  for_paths random g er dr fuel b ps st = Ok (Some pd, st') -> In pd ps.
Proof.
  revert st; induction ps as [|[p d] ps IH]; simpl; intros st H; [discriminate|].
  destruct (hop_loop random g er dr fuel b p 0 st) as [[[] st1]| |];
    simpl in H; try discriminate.
  - injection H as <- _; destruct ps as [|x ps]; simpl; auto.
  - right; eapply IH; exact H.
  - right; eapply IH; exact H.
Qed.

Lemma outer_loop_in {Gen} (random : Gen -> Q * Gen) g er dr fuel b ps st pd st' :
  outer_loop random g er dr fuel b ps st = Ok (pd, st') -> In pd ps.
Proof.
  revert st; induction fuel as [|f IH]; simpl; intros st H; [discriminate|].
  destruct (for_paths random g er dr f b ps st) as [[[pd'|] st1]| |] eqn:E;
    simpl in H; try discriminate.
  - injection H as -> _. eapply for_paths_in; exact E.
  - eapply IH; exact H.
Qed.




(** No candidate with a hop: no pass of the [for] statement delivers, and
    the [while] loop never ends. *)
Lemma for_paths_short {Gen} (random : Gen -> Q * Gen) g er dr fuel b ps st :
  (forall p d, In (p, d) ps -> (length p <= 1)%nat) ->
  for_paths random g er dr fuel b ps st = NoFuel
  \/ exists st', for_paths random g er dr fuel b ps st = Ok (None, st').
Proof.
  revert st; induction ps as [|[p d] ps IH]; intros st Hs; cbn [for_paths];
    [right; eauto|].
  destruct fuel as [|f]; [left; reflexivity|].
  cbn [hop_loop]. replace (Nat.ltb 0 (length p - 1)) with false
    by (symmetry; apply Nat.ltb_ge; specialize (Hs p d (or_introl eq_refl)); lia).
  cbn [bind]. apply IH; intros p' d' H; apply (Hs p' d'); right; exact H.
Qed.

Lemma outer_loop_short {Gen} (random : Gen -> Q * Gen) g er dr fuel b ps st :
  (forall p d, In (p, d) ps -> (length p <= 1)%nat) ->
  outer_loop random g er dr fuel b ps st = NoFuel.
Proof.
  intros Hs; revert st; induction fuel as [|f IH]; intros st; [reflexivity|].
  cbn [outer_loop].
  destruct (for_paths_short random g er dr f b ps st Hs) as [->|[st' ->]];
    [reflexivity|apply IH].
Qed.

(** [source == target] for a node: networkx yields [[source]] alone. *)
Lemma all_simple_paths_same g s :
  has_node g s = true -> all_simple_paths g s s = Ok [[s]].
Proof.
  intros H; unfold all_simple_paths, path_targets; rewrite H; cbn [negb].
  destruct (length (graph_nodes g) - 1)%nat;
    cbn [explore mem existsb app]; rewrite String.eqb_refl; reflexivity.
Qed.

Lemma paths_with_delays_same g s :
  has_node g s = true -> paths_with_delays g s s = Ok [([s], 0)].
Proof.
  intros H; unfold paths_with_delays; rewrite (all_simple_paths_same g s H).
  reflexivity.
Qed.

Lemma paths_with_delays_in g s t pwd e :
  paths_with_delays g s t = Ok pwd -> In e pwd ->
  exists ps, all_simple_paths g s t = Ok ps /\ In (fst e) ps.
Proof.
  unfold paths_with_delays; intros H He.
  destruct (all_simple_paths g s t) as [ps| |]; simpl in H; try discriminate.
  exists ps; split; [reflexivity|].
  destruct (map_res _ ps) as [entries| |] eqn:Ee; simpl in H; try discriminate.
  injection H as <-.
  assert (Hin : Forall (fun x => In x entries) (stable_sort snd entries)).
  { apply stable_sort_Forall; apply Forall_forall; auto. }
  rewrite Forall_forall in Hin; specialize (Hin e He).
  pose proof (map_res_Forall _ (fun p x => fst x = p) ps entries Ee) as Hf.
  rewrite Forall_forall in Hf.
  destruct (Hf (fun p x Hx => ltac:(
      destruct (path_delay g p); simpl in Hx; try discriminate;
      injection Hx as <-; reflexivity)) e Hin) as [p [Hp <-]].
  exact Hp.
Qed.

End Loops.

Module Retries.
Import DtnCore Simulator Facts Paths.
Local Open Scope list_scope.

Section Counters.
Context {Gen : Type} (random : Gen -> Q * Gen) (g : Graph) (er dr : Q).

Lemma draw_retrans st : retransmissions (snd (draw random st)) = retransmissions st.
  Proof. unfold draw; destruct (random (rng st)); reflexivity. Qed.

Lemma recovery_loop_retrans k rc0 b cur nxt st rc st' :
    recovery_loop random er dr k rc0 b cur nxt st = Ok (rc, st') ->
    (retransmissions st' + rc0 = retransmissions st + rc)%nat.
  Proof.
    revert rc0 st; induction k as [|k IH]; intros rc0 st H; cbn [recovery_loop] in H.
    - injection H as <- <-; reflexivity.
    - pose proof (draw_retrans st) as Hd.
      destruct (draw random st) as [r st1]; simpl in Hd.
      destruct (Qltb ((er + dr) / 2) r).
      + destruct (if buf_has (buffer st1) cur then _ else _) as [buf| |];
          cbn [bind] in H; try discriminate.
        destruct (set_remove (cur, nxt) (disrupted_links st1)) as [dl| |];
          cbn [bind] in H; try discriminate.
        injection H as <- <-; simpl; lia.
      + apply IH in H; simpl in H; lia.
  Qed.

Lemma draw_disruptions st :
    disruptions_handled (snd (draw random st)) = disruptions_handled st.
  Proof. unfold draw; destruct (random (rng st)); reflexivity. Qed.

Lemma recovery_loop_disruptions k rc0 b cur nxt st rc st' :
    recovery_loop random er dr k rc0 b cur nxt st = Ok (rc, st') ->
    disruptions_handled st' = disruptions_handled st.
  Proof.
    revert rc0 st; induction k as [|k IH]; intros rc0 st H; cbn [recovery_loop] in H.
    - injection H as <- <-; reflexivity.
    - pose proof (draw_disruptions st) as Hd.
      destruct (draw random st) as [r st1]; simpl in Hd.
      destruct (Qltb ((er + dr) / 2) r).
      + destruct (if buf_has (buffer st1) cur then _ else _) as [buf| |];
          cbn [bind] in H; try discriminate.
        destruct (set_remove (cur, nxt) (disrupted_links st1)) as [dl| |];
          cbn [bind] in H; try discriminate.
        injection H as <- <-; simpl; exact Hd.
      + apply IH in H; simpl in H; congruence.
  Qed.

Lemma link_check_retrans b cur nxt st brk st' :
    link_check random er dr b cur nxt st = Ok (brk, st') ->
    exists rc, retransmissions st' = (retransmissions st + rc)%nat
               /\ (brk = true -> rc = max_retries).
  Proof.
    unfold link_check; intros H.
    pose proof (draw_retrans st) as Hd1.
    destruct (draw random st) as [r1 st1]; simpl in Hd1.
    pose proof (draw_retrans st1) as Hd2.
    destruct (draw random st1) as [r2 st2]; simpl in Hd2.
    destruct (Qltb r1 er || Qltb r2 dr).
    - match type of H with
      | context [recovery_loop random er dr max_retries 0 b cur nxt ?s] =>
          destruct (recovery_loop random er dr max_retries 0 b cur nxt s)
            as [[rc st3]| |] eqn:Hr; cbn [bind] in H; try discriminate;
          apply recovery_loop_retrans in Hr
      end.
      injection H as <- <-. exists rc; split.
      + destruct (buffer_store b cur _); simpl in Hr; lia.
      + intros E; apply Nat.eqb_eq in E; exact E.
    - injection H as <- <-. exists 0%nat; split; [lia|discriminate].
  Qed.

Lemma transmit_retrans cur nxt st ok st' :
    transmit random g er cur nxt st = Ok (ok, st') ->
    retransmissions st' = retransmissions st.
  Proof.
    unfold transmit; intros H.
    destruct (edge_attr g cur nxt) as [[d dist]| |]; cbn [bind] in H; try discriminate.
    pose proof (draw_retrans st) as Hd.
    destruct (draw random st) as [r st1]; simpl in Hd.
    destruct (Qltb _ _); injection H as <- <-; simpl; exact Hd.
  Qed.

  (** A path is abandoned only after [max_retries] failed recoveries. *)
Lemma hop_loop_exhausted fuel b p i st st' :
    hop_loop random g er dr fuel b p i st = Ok (Exhausted, st') ->
    (retransmissions st + max_retries <= retransmissions st')%nat.
  Proof.
    revert i st; induction fuel as [|f IH]; intros i st H; cbn [hop_loop] in H;
      [discriminate|].
    destruct (Nat.ltb i (length p - 1)); [|discriminate].
    destruct (link_check random er dr b _ _ st) as [[brk st1]| |] eqn:Hl;
      cbn [bind] in H; try discriminate.
    apply link_check_retrans in Hl as [rc [Hrc Hbrk]].
    destruct brk.
    - injection H as <-; rewrite Hrc, (Hbrk eq_refl); lia.
    - destruct (transmit random g er _ _ st1) as [[ok st2]| |] eqn:Ht;
        cbn [bind] in H; try discriminate.
      apply transmit_retrans in Ht.
      destruct ok; [destruct (Nat.eqb _ _); [discriminate|]|];
        apply IH in H; lia.
  Qed.
End Counters.

Lemma set_add_In x s : In x (set_add x s).
Proof.
  unfold set_add; destruct (existsb (link_eqb x) s) eqn:E.
  - apply existsb_exists in E as [y [Hy Hxy]].
    unfold link_eqb in Hxy; apply andb_true_iff in Hxy as [H1 H2].
    apply String.eqb_eq in H1, H2. destruct x, y; simpl in *; subst; exact Hy.
  - apply in_or_app; right; left; reflexivity.
Qed.

Lemma contains_suffix n a : contains n (a ++ n)%string = true.
Proof.
  assert (Hp : forall m, String.prefix m m = true).
  { induction m as [|c m IH]; simpl; [reflexivity|].
    destruct (Ascii.ascii_dec c c) as [_|C]; [exact IH|congruence]. }
  induction a as [|c a IH]; simpl.
  - destruct n as [|c n]; cbn [contains]; rewrite Hp; reflexivity.
  - cbn [contains]. rewrite IH.
    match goal with |- (if ?c then _ else _) = _ => destruct c end; reflexivity.
Qed.

End Retries.

Module Alternatives.
Import Facts Paths ZeroRates.
Local Open Scope list_scope.
Local Open Scope Q_scope.




End Alternatives.

Module Buffers.
Import DtnCore Simulator.
Local Open Scope list_scope.

Lemma datetime_eqb_refl t : datetime_eqb t t = true.
Proof. unfold datetime_eqb; rewrite !Nat.eqb_refl; reflexivity. Qed.

Lemma bundle_eqb_refl b : bundle_eqb b b = true.
Proof.
  unfold bundle_eqb; rewrite !String.eqb_refl, datetime_eqb_refl, Z.eqb_refl.
  reflexivity.
Qed.

Lemma bundle_in_snoc b l : bundle_in b (l ++ [b]) = true.
Proof.
  unfold bundle_in; apply existsb_exists; exists b; split.
  - apply in_or_app; right; left; reflexivity.
  - apply bundle_eqb_refl.
Qed.

Lemma buf_get_set buf node l : buf_get (buf_set buf node l) node = l.
Proof.
  induction buf as [|[k l'] buf IH]; simpl.
  - rewrite String.eqb_refl; reflexivity.
  - destruct (String.eqb k node) eqn:E; simpl; rewrite E; [reflexivity|exact IH].
Qed.

(** Lines 141-145 store the bundle at the end of the node's list, with no
    bound on its length. *)
Lemma buffer_store_some b node buf buf' :
  buffer_store b node buf = Some buf' -> buf_get buf' node = buf_get buf node ++ [b].
Proof.
  unfold buffer_store; destruct (bundle_in b (buf_get buf node)); simpl;
    [discriminate|].
  intros H; injection H as <-; apply buf_get_set.
Qed.

Section Exhaust.
Context {Gen : Type} (random : Gen -> Q * Gen) (er dr : Q).

Lemma draw_buffer st : buffer (snd (draw random st)) = buffer st.
  Proof. unfold draw; destruct (random (rng st)); reflexivity. Qed.

  (** A recovery loop that runs all its rounds never touches the buffer. *)
Lemma recovery_loop_full k rc b cur nxt st rc' st' :
    recovery_loop random er dr k rc b cur nxt st = Ok (rc', st') ->
    rc' = (rc + k)%nat -> buffer st' = buffer st.
  Proof.
    revert rc st; induction k as [|k IH]; intros rc st H Hrc;
      cbn [recovery_loop] in H.
    - injection H as <- <-; reflexivity.
    - pose proof (draw_buffer st) as Hd.
      destruct (draw random st) as [r st1]; simpl in Hd.
      destruct (Qltb ((er + dr) / 2) r).
      + destruct (if buf_has (buffer st1) cur then _ else _) as [buf| |];
          cbn [bind] in H; try discriminate.
        destruct (set_remove (cur, nxt) (disrupted_links st1)) as [dl| |];
          cbn [bind] in H; try discriminate.
        injection H as <- <-; lia.
      + apply IH in H; [simpl in H; congruence|lia].
  Qed.

  (** The [break] of line 203 leaves the bundle stored at [cur]. *)
Lemma link_check_exhausted_keeps b cur nxt st st' :
    link_check random er dr b cur nxt st = Ok (true, st') ->
    bundle_in b (buf_get (buffer st') cur) = true.
  Proof.
    unfold link_check; intros H.
    destruct (draw random st) as [r1 st1].
    destruct (draw random st1) as [r2 st2].
    destruct (Qltb r1 er || Qltb r2 dr); [|discriminate].
    match type of H with
    | context [recovery_loop random er dr max_retries 0 b cur nxt ?s] =>
        destruct (recovery_loop random er dr max_retries 0 b cur nxt s)
          as [[rc st3]| |] eqn:Hr; cbn [bind] in H; try discriminate
    end.
    injection H as Hrc <-. apply Nat.eqb_eq in Hrc.
    apply recovery_loop_full in Hr; [|rewrite Hrc; reflexivity].
    rewrite Hr.
    destruct (buffer_store b cur _) as [buf|] eqn:E; simpl.
    - simpl in E; apply buffer_store_some in E; rewrite E; apply bundle_in_snoc.
    - simpl in E; unfold buffer_store in E.
      destruct (bundle_in b (buf_get (buffer st2) cur)); [reflexivity|discriminate].
  Qed.
End Exhaust.

End Buffers.

Module Claims.
Import DtnCore Simulator Facts Paths ZeroRates Loops Alternatives Buffers Scenarios.
Local Open Scope list_scope.
Local Open Scope Q_scope.

Lemma outer_loop_no_paths {Gen} (random : Gen -> Q * Gen) g er dr fuel b st :
  outer_loop random g er dr fuel b [] st = NoFuel.
Proof.
  revert st; induction fuel as [|f IH]; intros st; [reflexivity|].
  rewrite outer_loop_step; cbn [for_paths bind]. apply IH.
Qed.


(** ** C1 *)



(** ** C2 *)




(** ** C6 *)

(** C6, counterexample: [simulate(A, A)] on the A-B-C topology never
    returns: its one candidate is the zero-hop path [A], and the run is
    still going after 200 rounds of its outer loop (the theorem below shows
    this for every fuel). *)
Lemma same_endpoints_never_delivered :
  paths_with_delays topo_ABC "A" "A" = Ok [(["A"], 0)]
  /\ simulate_transmission half topo_ABC 0 0 200 "m" "A" "A" t0 t0 [] tt = NoFuel.
Proof.
  split; [vm_compute; reflexivity|].
  unfold simulate_transmission.
  replace (paths_with_delays topo_ABC "A" "A")
    with (Ok [(["A"], 0)] : res (list (list string * Q))) by (vm_compute; reflexivity).
  cbv beta iota delta [bind]. rewrite outer_loop_short; [reflexivity|].
  intros p d [H|[]]; injection H as <- _; simpl; lia.
Qed.

(** C6, as the code has it: with [source == destination] on a node, the
    only candidate current networkx yields is the zero-hop path [[s]]
    (earlier releases yield none). Either way no candidate has a hop to cross, the
    delivery flag is never set and the run never returns; a node outside the
    graph raises [NodeNotFound]. *)
Theorem same_endpoints_loop_forever {Gen} (random : Gen -> Q * Gen) g er dr fuel
    msg s now_id now_ts buf0 rng0 :
  simulate_transmission random g er dr fuel msg s s now_id now_ts buf0 rng0
  = (if has_node g s then NoFuel else Err NodeNotFound)
  /\ (has_node g s = true -> paths_with_delays g s s = Ok [([s], 0)])
  /\ (forall b ps st, (forall p d, In (p, d) ps -> (length p <= 1)%nat) ->
        outer_loop random g er dr fuel b ps st = NoFuel).
Proof.
  split; [|split; [apply paths_with_delays_same|apply outer_loop_short]].
  unfold simulate_transmission.
  destruct (has_node g s) eqn:Hs.
  - rewrite (paths_with_delays_same g s Hs).
    cbv beta iota delta [bind]. rewrite outer_loop_short; [reflexivity|].
    intros p d [H|[]]; injection H as <- _; simpl; lia.
  - unfold paths_with_delays, all_simple_paths; rewrite Hs; reflexivity.
Qed.

(** ** C3 *)

(** C3, counterexample: on hop A-B (rates 0.5) the entry check draws 0.9
    and 0.9 and passes; the transmission site then draws 0.1 < 0.5 * 1.0 and
    marks A-B disrupted: a second disruption check of the same hop attempt,
    three draws in all. *)
Lemma second_disruption_draw :
  exists st1 st2,
    link_check replay (1 # 2) (1 # 2) (bundle_at "A" "C") "A" "B"
      (start_state [9 # 10; 9 # 10; 1 # 10]) = Ok (false, st1)
    /\ transmit replay topo_ABC (1 # 2) "A" "B" st1 = Ok (false, st2)
    /\ disrupted_links st2 = [("A", "B")]
    /\ rng st2 = [].
Proof.
  eexists _, _; split; [vm_compute; reflexivity|].
  split; [vm_compute; reflexivity|]. split; reflexivity.
Qed.

(** C3, as the code has it: a hop attempt starts with the entry check of
    lines 133-136, one draw [r1] against [error_rate] and one draw [r2]
    against [disruption_rate]; when neither succeeds nothing but the
    generator changes, and when either does the hop counts as disrupted.
    Once that check passes (or the link recovers), the transmission site of
    lines 206-223 draws a third time, [r3], against [error_rate *
    distance_factor], the factor being 1.0 for a distance containing "km"
    and 1.5 otherwise; when [r3] is below it the link is added to the
    disrupted set and the same hop is attempted again, entry check
    included. *)
Theorem hop_attempt_second_check :
  (forall Gen (random : Gen -> Q * Gen) er dr b cur nxt st,
     (Qltb (fst (random (rng st))) er
      || Qltb (fst (random (snd (random (rng st))))) dr = false ->
      link_check random er dr b cur nxt st
      = Ok (false, mkSim (snd (random (snd (random (rng st)))))
                     (disrupted_links st) (total_delay st) (retransmissions st)
                     (buffer st) (recoveries st) (disruptions_handled st)
                     (stored_bundles_count st)))
     /\ (Qltb (fst (random (rng st))) er
         || Qltb (fst (random (snd (random (rng st))))) dr = true ->
         forall brk st', link_check random er dr b cur nxt st = Ok (brk, st') ->
         disruptions_handled st' = S (disruptions_handled st)))
  /\ (forall Gen (random : Gen -> Q * Gen) g er cur nxt st d dist ok st',
        edge_attr g cur nxt = Ok (d, dist) ->
        transmit random g er cur nxt st = Ok (ok, st') ->
        rng st' = snd (random (rng st))
        /\ ok = negb (Qltb (fst (random (rng st)))
                           (er * (if contains "km" dist then 1 else 3 # 2)))
        /\ (contains "km" dist = true ->
            ok = negb (Qltb (fst (random (rng st))) (er * 1)))
        /\ (ok = false -> In (cur, nxt) (disrupted_links st')))
  /\ (forall Gen (random : Gen -> Q * Gen) g er dr f b p i st st1 st2,
        (i < length p - 1)%nat ->
        link_check random er dr b (nth i p "") (nth (S i) p "") st = Ok (false, st1) ->
        transmit random g er (nth i p "") (nth (S i) p "") st1 = Ok (false, st2) ->
        hop_loop random g er dr (S f) b p i st = hop_loop random g er dr f b p i st2).
Proof.
  split; [|split].
  - intros Gen random er dr b cur nxt st.
    unfold link_check, draw.
    destruct (random (rng st)) as [r1 g1]; cbn [rng fst snd].
    destruct (random g1) as [r2 g2]; cbn [fst snd].
    split; intros Hc; rewrite Hc; [reflexivity|].
    intros brk st' H.
    match type of H with
    | context [recovery_loop random er dr max_retries 0 b cur nxt ?s] =>
        destruct (recovery_loop random er dr max_retries 0 b cur nxt s)
          as [[rc st3]| |] eqn:Hr; cbn [bind] in H; try discriminate
    end.
    injection H as _ <-. apply Retries.recovery_loop_disruptions in Hr.
    rewrite Hr. destruct (buffer_store _ _ _); reflexivity.
  - intros Gen random g er cur nxt st d dist ok st' Ha Ht.
    unfold transmit in Ht; rewrite Ha in Ht; cbn [bind] in Ht.
    unfold draw in Ht; destruct (random (rng st)) as [r3 gn]; cbn [fst snd].
    destruct (contains "km" dist);
      destruct (Qltb _ _); injection Ht as <- <-; cbn [rng disrupted_links];
      repeat split; try reflexivity; try discriminate;
      intros _; apply Retries.set_add_In.
  - intros Gen random g er dr f b p i st st1 st2 Hi Hl Ht.
    cbn [hop_loop]. replace (Nat.ltb i (length p - 1)) with true
      by (symmetry; apply Nat.ltb_lt; exact Hi).
    rewrite Hl; cbn [bind]. rewrite Ht; cbn [bind]. reflexivity.
Qed.

(** ** C4 *)

(** C4, counterexample: two disjoint routes A-B-C (delay 2) and A-D-C
    (delay 4), rates 0.5; A-B is disrupted (draw 0) and its three recovery
    draws fail (0, 0, 0). The run goes to A-D-C only after three
    retransmissions. *)
Lemma disrupted_first_hop_consumes_retries :
  exists stats buf,
    simulate_transmission replay topo_two (1 # 2) (1 # 2) 10 "m" "A" "C" t0 t0 []
      [0; 9 # 10; 0; 0; 0] = Ok (stats, buf)
    /\ final_path stats = ["A"; "D"; "C"]
    /\ total_retransmissions stats = 3%nat.
Proof.
  eexists _, _; split; [vm_compute; reflexivity|]. split; reflexivity.
Qed.

(** C4, as the code has it: a disrupted hop goes straight to the recovery
    loop, with no reroute first; a path is abandoned (and the next
    candidate tried) only after all [max_retries] = 3 recoveries failed,
    each failure counting one retransmission. In the two-route scenario
    above the run switches to A-D-C after 3 retransmissions. *)
Theorem retries_before_path_switch {Gen} (random : Gen -> Q * Gen) g er dr fuel b p
    st st' :
  hop_loop random g er dr fuel b p 0 st = Ok (Exhausted, st') ->
  (retransmissions st + max_retries <= retransmissions st')%nat
  /\ exists stats buf,
       simulate_transmission replay topo_two (1 # 2) (1 # 2) 10 "m" "A" "C" t0 t0
         [] [0; 9 # 10; 0; 0; 0] = Ok (stats, buf)
       /\ final_path stats = ["A"; "D"; "C"]
       /\ total_retransmissions stats = 3%nat.
Proof.
  intros H; split; [exact (Retries.hop_loop_exhausted random g er dr fuel b p 0 st st' H)|].
  eexists _, _; split; [vm_compute; reflexivity|]. split; reflexivity.
Qed.

Lemma retries_before_path_switch_witness :
  exists st',
    hop_loop replay topo_two (1 # 2) (1 # 2) 5 (bundle_at "A" "C") ["A"; "B"; "C"] 0
      (start_state [0; 9 # 10; 0; 0; 0]) = Ok (Exhausted, st')
    /\ (0 + max_retries <= retransmissions st')%nat.
Proof.
  eexists; split; [vm_compute; reflexivity|].
  exact (proj1 (retries_before_path_switch replay topo_two (1 # 2) (1 # 2) 5
                  (bundle_at "A" "C") ["A"; "B"; "C"]
                  (start_state [0; 9 # 10; 0; 0; 0]) _
                  ltac:(vm_compute; reflexivity))).
Defined.

(** ** C5 *)



(** ** C7 *)

(** C7, counterexample: [DTNNode.store_bundle] stores the same bundle twice
    (no deduplication), and the simulator's buffer (lines 141-145) takes an
    1101st bundle (no capacity). *)
Lemma store_twice_keeps_both :
  store_bundle (snd (store_bundle (new_node "A") (bundle_at "A" "C")))
      (bundle_at "A" "C")
    = (true, mkDTNNode "A" [bundle_at "A" "C"; bundle_at "A" "C"] (1024 * 1024))
  /\ exists buf',
       buffer_store (bundle_at "A" "C") "A"
         [("A", repeat (bundle_at "A" "B") 1100)] = Some buf'
       /\ length (buf_get buf' "A") = 1101%nat.
Proof.
  split; [vm_compute; reflexivity|].
  eexists; split; [vm_compute; reflexivity|]. vm_compute; reflexivity.
Qed.

(** C7, as the code has it: [DTNNode.store_bundle] has no duplicate test:
    below capacity it appends the bundle whatever the buffer holds, and when
    [len(buffer) * 1024 >= max_buffer_size] it returns [False] and leaves the
    node unchanged (no exception); with the default size this caps the
    buffer at 1024 bundles. The simulator's own buffer (lines 141-145)
    skips a bundle that is already there (Python [in]: all fields equal)
    and otherwise appends it, whatever the length of the list. *)
Theorem store_caps_without_dedup :
  (forall n b,
     (Z.of_nat (length (DtnCore.buffer n)) * 1024 < max_buffer_size n)%Z ->
     store_bundle n b
     = (true, mkDTNNode (node_id n) (DtnCore.buffer n ++ [b]) (max_buffer_size n)))
  /\ (forall n b,
        (max_buffer_size n <= Z.of_nat (length (DtnCore.buffer n)) * 1024)%Z ->
        store_bundle n b = (false, n))
  /\ (forall n b, max_buffer_size n = (1024 * 1024)%Z ->
        (length (DtnCore.buffer n) <= 1024)%nat ->
        (length (DtnCore.buffer (snd (store_bundle n b))) <= 1024)%nat)
  /\ (forall b node buf, bundle_in b (buf_get buf node) = false ->
        buffer_store b node buf = Some (buf_set buf node (buf_get buf node ++ [b]))
        /\ buf_get (buf_set buf node (buf_get buf node ++ [b])) node
           = buf_get buf node ++ [b])
  /\ (forall b node buf, bundle_in b (buf_get buf node) = true ->
        buffer_store b node buf = None).
Proof.
  split; [|split; [|split; [|split]]].
  - intros n b H; unfold store_bundle; apply Z.ltb_lt in H; rewrite H; reflexivity.
  - intros n b H; unfold store_bundle.
    replace (Z.ltb _ _) with false by (symmetry; apply Z.ltb_ge; exact H).
    reflexivity.
  - intros n b Hmax Hlen; unfold store_bundle; rewrite Hmax.
    destruct (Z.ltb_spec (Z.of_nat (length (DtnCore.buffer n)) * 1024) (1024 * 1024));
      cbn [snd DtnCore.buffer]; [rewrite length_app; cbn [length]; lia|exact Hlen].
  - intros b node buf H; unfold buffer_store; rewrite H; split; [reflexivity|].
    apply buf_get_set.
  - intros b node buf H; unfold buffer_store; rewrite H; reflexivity.
Qed.

(** ** C8 *)

(** C8, a slip of the code: when the recovery retries of a hop run out
    (the [break] of line 203) the bundle stored at that node is left in its
    buffer, unlike the recovery branch which removes it. In the run below
    (A-B-C, rates 0.5) the bundle is stored at A, recovered, then stored at
    B and abandoned there, then stored at A again and abandoned: after
    delivery it sits in the buffers of both B and A. *)
Theorem exhausted_hop_keeps_bundle {Gen} (random : Gen -> Q * Gen) er dr b cur nxt
    st st' :
  link_check random er dr b cur nxt st = Ok (true, st') ->
  bundle_in b (buf_get (buffer st') cur) = true
  /\ exists stats,
       simulate_transmission replay topo_ABC (1 # 2) (1 # 2) 20 "m" "A" "C" t0 t0 []
         [9 # 10; 9 # 10; 9 # 10; 0; 9 # 10; 0; 0; 0; 0; 9 # 10; 0; 0; 0]
       = Ok (stats, [("B", [bundle_at "A" "C"]); ("A", [bundle_at "A" "C"])])
       /\ final_path stats = ["A"; "B"; "C"].
Proof.
  intros H; split; [exact (link_check_exhausted_keeps random er dr b cur nxt st st' H)|].
  eexists; split; [vm_compute; reflexivity|]. reflexivity.
Qed.

Lemma exhausted_hop_keeps_bundle_witness :
  exists st',
    link_check replay (1 # 2) (1 # 2) (bundle_at "A" "C") "B" "C"
      (start_state [0; 0; 0; 0; 0]) = Ok (true, st')
    /\ bundle_in (bundle_at "A" "C") (buf_get (buffer st') "B") = true.
Proof.
  eexists; split; [vm_compute; reflexivity|].
  exact (proj1 (exhausted_hop_keeps_bundle replay (1 # 2) (1 # 2) (bundle_at "A" "C")
                  "B" "C" (start_state [0; 0; 0; 0; 0]) _
                  ltac:(vm_compute; reflexivity))).
Defined.

(** ** C10 *)

(** C10: without an explicit id, [__post_init__] sets
    [id = "bundle_" + creation_timestamp.strftime('%H%M%S')] (the timestamp
    itself defaulting to [datetime.now()]); two bundles whose timestamps
    agree on hour, minute and second get the same id, so an id-keyed
    membership test sees the second as present. *)
Theorem default_id_second_resolution src dst pl prio now t1 t2 :
  hour t1 = hour t2 -> minute t1 = minute t2 -> second t1 = second t2 ->
  id (make_bundle src dst pl (Some t1) None prio now)
    = ("bundle_" ++ strftime_HMS t1)%string
  /\ id (make_bundle src dst pl None None prio now)
    = ("bundle_" ++ strftime_HMS now)%string
  /\ id (make_bundle src dst pl (Some t1) None prio now)
    = id (make_bundle src dst pl (Some t2) None prio now)
  /\ existsb (fun x => String.eqb (id x) (id (make_bundle src dst pl (Some t2) None prio now)))
       [make_bundle src dst pl (Some t1) None prio now] = true
  /\ strftime_HMS t0 = "123005"%string.
Proof.
  intros Hh Hm Hs.
  assert (E : id (make_bundle src dst pl (Some t1) None prio now)
              = id (make_bundle src dst pl (Some t2) None prio now)).
  { simpl; unfold strftime_HMS; rewrite Hh, Hm, Hs; reflexivity. }
  split; [reflexivity|]. split; [reflexivity|]. split; [exact E|]. split.
  - cbn [existsb]; rewrite E, String.eqb_refl; reflexivity.
  - reflexivity.
Qed.

Lemma default_id_second_resolution_witness :
  id (make_bundle "A" "C" "m" (Some t0) None 1 t0)
  = id (make_bundle "A" "C" "m" (Some (mkDateTime 2024 1 1 12 30 5 7)) None 1 t0)
  /\ datetime_eqb t0 (mkDateTime 2024 1 1 12 30 5 7) = false.
Proof.
  split; [|reflexivity].
  exact (proj1 (proj2 (proj2 (default_id_second_resolution "A" "C" "m" 1 t0 t0
                                (mkDateTime 2024 1 1 12 30 5 7)
                                eq_refl eq_refl eq_refl)))).
Defined.

End Claims.

(** ** Invariants of a run of [simulate_transmission] *)

Module Invariants.
Import DtnCore Simulator Facts Paths ZeroRates Loops Retries Buffers.
Local Open Scope list_scope.
Local Open Scope Q_scope.

Lemma nth_hop_in p i :
  (i < length p - 1)%nat -> In (nth i p "", nth (S i) p "") (hops p).
Proof.
  intros Hi; apply (in_skipn_in _ i); rewrite (hops_skipn p i Hi); left; reflexivity.
Qed.

(** A property of the state kept by the entry check and the transmission of
    every hop of the candidate paths is kept by the whole run. *)
Section Lift.
Context {Gen : Type} (random : Gen -> Q * Gen) (g : Graph) (er dr : Q) (b : Bundle).
Context (E : string -> string -> Prop) (P : @SimState Gen -> Prop).
Hypothesis HL : forall cur nxt st brk st', E cur nxt -> P st ->
  link_check random er dr b cur nxt st = Ok (brk, st') -> P st'.
Hypothesis HT : forall cur nxt st ok st', E cur nxt -> P st ->
  transmit random g er cur nxt st = Ok (ok, st') -> P st'.

Lemma hop_loop_pres fuel p i st x st' :
  (forall h, In h (hops p) -> E (fst h) (snd h)) -> P st ->
  hop_loop random g er dr fuel b p i st = Ok (x, st') -> P st'.
Proof.
  intros HE; revert i st; induction fuel as [|f IH]; intros i st HP H;
    cbn [hop_loop] in H; [discriminate|].
  destruct (Nat.ltb i (length p - 1)) eqn:Hi; [|injection H as _ <-; exact HP].
  apply Nat.ltb_lt in Hi. pose proof (HE _ (nth_hop_in p i Hi)) as He; simpl in He.
  destruct (link_check random er dr b _ _ st) as [[brk st1]| |] eqn:Hl;
    cbn [bind] in H; try discriminate.
  apply (HL _ _ _ _ _ He HP) in Hl.
  destruct brk; [injection H as _ <-; exact Hl|].
  destruct (transmit random g er _ _ st1) as [[ok st2]| |] eqn:Ht;
    cbn [bind] in H; try discriminate.
  apply (HT _ _ _ _ _ He Hl) in Ht.
  destruct ok; [destruct (Nat.eqb _ _); [injection H as _ <-; exact Ht|]|];
    eapply IH; eauto.
Qed.

Lemma for_paths_pres fuel ps st x st' :
  (forall pd h, In pd ps -> In h (hops (fst pd)) -> E (fst h) (snd h)) -> P st ->
  for_paths random g er dr fuel b ps st = Ok (x, st') -> P st'.
Proof.
  revert st; induction ps as [|[p d] ps IH]; intros st HE HP H; cbn [for_paths] in H.
  - injection H as _ <-; exact HP.
  - destruct (hop_loop random g er dr fuel b p 0 st) as [[ex st1]| |] eqn:Hh;
      cbn [bind] in H; try discriminate.
    apply hop_loop_pres in Hh;
      [|intros h Hin; exact (HE (p, d) h (or_introl eq_refl) Hin)|exact HP].
    destruct ex; [injection H as _ <-; exact Hh| |];
      (eapply IH; [|exact Hh|exact H]; intros pd h Hpd; apply HE; right; exact Hpd).
Qed.

Lemma outer_loop_pres fuel ps st x st' :
  (forall pd h, In pd ps -> In h (hops (fst pd)) -> E (fst h) (snd h)) -> P st ->
  outer_loop random g er dr fuel b ps st = Ok (x, st') -> P st'.
Proof.
  intros HE; revert st; induction fuel as [|f IH]; intros st HP H;
    cbn [outer_loop] in H; [discriminate|].
  destruct (for_paths random g er dr f b ps st) as [[o st1]| |] eqn:Hf;
    cbn [bind] in H; try discriminate.
  apply for_paths_pres in Hf; [|exact HE|exact HP].
  destruct o; [injection H as _ <-; exact Hf|exact (IH _ Hf H)].
Qed.
End Lift.

(** What a finished run is made of. *)
Lemma simulate_result {Gen} (random : Gen -> Q * Gen) g er dr fuel msg s t now_id
    now_ts buf0 rng0 stats buf :
  simulate_transmission random g er dr fuel msg s t now_id now_ts buf0 rng0
    = Ok (stats, buf) ->
  exists pwd p d st,
    paths_with_delays g s t = Ok pwd
    /\ outer_loop random g er dr fuel
         (make_bundle s t msg (Some now_ts) (Some ("bundle_" ++ strftime_HMS now_id)%string)
            1 now_ts)
         pwd (mkSim rng0 [] 0 0%nat buf0 0%nat 0%nat 0%nat) = Ok ((p, d), st)
    /\ stats = mkStats ("bundle_" ++ strftime_HMS now_id) (total_delay st)
                 (retransmissions st) p (disruptions_handled st) (disrupted_links st)
                 (stored_bundles_count st)
                 (max_list (map (fun e => length (snd e)) (buffer st)))
                 (S (index_of (p, d) pwd)) (length pwd)
                 (map (fun e => (fst e, length (snd e))) (buffer st))
                 (stored_bundles_count st) (retransmissions st) (recoveries st)
    /\ buf = buffer st.
Proof.
  unfold simulate_transmission.
  destruct (paths_with_delays g s t) as [pwd| |]; cbn [bind]; try discriminate.
  match goal with
  | |- context [outer_loop random g er dr fuel ?b pwd ?st] =>
      destruct (outer_loop random g er dr fuel b pwd st) as [[[p d] st']| |] eqn:Ho;
        cbn [bind]; try discriminate
  end.
  intros H; injection H as <- <-.
  exists pwd, p, d, st'; split; [reflexivity|]; split; [exact Ho|]; split; reflexivity.
Qed.

(** Every hop of a candidate is an edge of the graph. *)
Lemma paths_with_delays_edges g s t pwd :
  paths_with_delays g s t = Ok pwd ->
  forall pd h, In pd pwd -> In h (hops (fst pd)) ->
    exists a, edge_attr g (fst h) (snd h) = Ok a.
Proof.
  intros H pd h Hpd Hh.
  destruct (paths_with_delays_in g s t pwd pd H Hpd) as [ps [Hps Hin]].
  exact (proj1 (all_simple_paths_spec g s t ps (fst pd) Hps Hin) h Hh).
Qed.

(** *** Counters *)

Section Counts.
Context {Gen : Type} (random : Gen -> Q * Gen) (g : Graph) (er dr : Q).

Definition counts_ok (st : @SimState Gen) : Prop :=
  (recoveries st <= disruptions_handled st
   /\ stored_bundles_count st <= disruptions_handled st
   /\ retransmissions st <= max_retries * disruptions_handled st)%nat.

Lemma draw_counts st :
  disruptions_handled (snd (draw random st)) = disruptions_handled st
  /\ stored_bundles_count (snd (draw random st)) = stored_bundles_count st
  /\ recoveries (snd (draw random st)) = recoveries st
  /\ retransmissions (snd (draw random st)) = retransmissions st.
Proof. unfold draw; destruct (random (rng st)); repeat split. Qed.

Lemma recovery_loop_counts k rc b cur nxt st rc' st' :
  recovery_loop random er dr k rc b cur nxt st = Ok (rc', st') ->
  disruptions_handled st' = disruptions_handled st
  /\ stored_bundles_count st' = stored_bundles_count st
  /\ (recoveries st' <= S (recoveries st))%nat
  /\ (retransmissions st' <= retransmissions st + k)%nat.
Proof.
  revert rc st; induction k as [|k IH]; intros rc st H; cbn [recovery_loop] in H.
  - injection H as _ <-; repeat split; lia.
  - unfold draw in H; destruct (random (rng st)) as [r gn].
    destruct (Qltb ((er + dr) / 2) r).
    + destruct (if buf_has _ cur then _ else _) as [buf| |];
        cbn [bind] in H; try discriminate.
      destruct (set_remove (cur, nxt) _) as [dl| |]; cbn [bind] in H; try discriminate.
      injection H as _ <-; simpl; repeat split; lia.
    + apply IH in H; simpl in H; lia.
Qed.

Lemma link_check_counts b cur nxt st brk st' :
  counts_ok st -> link_check random er dr b cur nxt st = Ok (brk, st') -> counts_ok st'.
Proof.
  unfold link_check; intros Hc H.
  pose proof (draw_counts st) as Hd1.
  destruct (draw random st) as [r1 st1]; simpl in Hd1.
  pose proof (draw_counts st1) as Hd2.
  destruct (draw random st1) as [r2 st2]; simpl in Hd2.
  unfold counts_ok in *.
  destruct (Qltb r1 er || Qltb r2 dr).
  - match type of H with
    | context [recovery_loop random er dr max_retries 0 b cur nxt ?s] =>
        destruct (recovery_loop random er dr max_retries 0 b cur nxt s)
          as [[rc st3]| |] eqn:Hr; cbn [bind] in H; try discriminate;
        apply recovery_loop_counts in Hr
    end.
    injection H as _ <-.
    destruct (buffer_store b cur _); simpl in Hr; unfold max_retries in *; lia.
  - injection H as _ <-; lia.
Qed.

Lemma transmit_counts cur nxt st ok st' :
  counts_ok st -> transmit random g er cur nxt st = Ok (ok, st') -> counts_ok st'.
Proof.
  unfold transmit; intros Hc H.
  destruct (edge_attr g cur nxt) as [[d dist]| |]; cbn [bind] in H; try discriminate.
  unfold draw in H; destruct (random (rng st)) as [r gn].
  destruct (Qltb _ _); injection H as _ <-; exact Hc.
Qed.
End Counts.

(** *** Disrupted links *)

Lemma link_eqb_true x y : link_eqb x y = true <-> x = y.
Proof.
  unfold link_eqb; rewrite andb_true_iff, !String.eqb_eq.
  destruct x, y; simpl; split; [intros [-> ->]; reflexivity|intros H; injection H; auto].
Qed.

Lemma set_add_NoDup x s : NoDup s -> NoDup (set_add x s).
Proof.
  unfold set_add; destruct (existsb (link_eqb x) s) eqn:E; intros H; [exact H|].
  assert (Hx : ~ In x s).
  { intros Hin.
    assert (Ht : existsb (link_eqb x) s = true)
      by (apply existsb_exists; exists x; split; [exact Hin|apply link_eqb_true; reflexivity]).
    congruence. }
  clear E; induction H as [|y s Hy Hs IH]; simpl; [constructor; [intros []|constructor]|].
  constructor; [|apply IH; intros Hin; apply Hx; right; exact Hin].
  intros Hin; apply in_app_or in Hin as [Hin|[<-|[]]]; [exact (Hy Hin)|].
  apply Hx; left; reflexivity.
Qed.

Lemma set_add_Forall (Q : Link2 -> Prop) x s :
  Forall Q s -> Q x -> Forall Q (set_add x s).
Proof.
  unfold set_add; destruct (existsb (link_eqb x) s); intros H Hx; [exact H|].
  apply Forall_app; split; [exact H|constructor; [exact Hx|constructor]].
Qed.

Lemma filter_Forall {A} (Q : A -> Prop) f l : Forall Q l -> Forall Q (filter f l).
Proof.
  rewrite !Forall_forall; intros H x Hx; apply filter_In in Hx as [Hx _]; auto.
Qed.

Section Links.
Context {Gen : Type} (random : Gen -> Q * Gen) (g : Graph) (er dr : Q).

Definition links_ok (st : @SimState Gen) : Prop :=
  NoDup (disrupted_links st)
  /\ Forall (fun l => exists a, edge_attr g (fst l) (snd l) = Ok a) (disrupted_links st).

Lemma draw_links st : disrupted_links (snd (draw random st)) = disrupted_links st.
Proof. unfold draw; destruct (random (rng st)); reflexivity. Qed.

Lemma recovery_loop_links k rc b cur nxt st rc' st' :
  recovery_loop random er dr k rc b cur nxt st = Ok (rc', st') ->
  disrupted_links st' = disrupted_links st
  \/ exists x, disrupted_links st' = filter (fun y => negb (link_eqb x y)) (disrupted_links st).
Proof.
  revert rc st; induction k as [|k IH]; intros rc st H; cbn [recovery_loop] in H.
  - injection H as _ <-; left; reflexivity.
  - pose proof (draw_links st) as Hd.
    destruct (draw random st) as [r st1]; simpl in Hd.
    destruct (Qltb ((er + dr) / 2) r).
    + destruct (if buf_has _ cur then _ else _) as [buf| |];
        cbn [bind] in H; try discriminate.
      unfold set_remove in H.
      destruct (existsb (link_eqb (cur, nxt)) (disrupted_links st1));
        cbn [bind] in H; try discriminate.
      injection H as _ <-; right; exists (cur, nxt); simpl; rewrite Hd; reflexivity.
    + apply IH in H; simpl in H; rewrite Hd in H; exact H.
Qed.

Lemma links_ok_filter st x st' :
  links_ok st ->
  (disrupted_links st' = disrupted_links st
   \/ disrupted_links st' = filter (fun y => negb (link_eqb x y)) (disrupted_links st)) ->
  links_ok st'.
Proof.
  unfold links_ok; intros [Hn Hf] [E|E]; rewrite E; split; auto.
  - apply NoDup_filter; exact Hn.
  - apply filter_Forall; exact Hf.
Qed.

Lemma link_check_links b cur nxt st brk st' :
  (exists a, edge_attr g cur nxt = Ok a) -> links_ok st ->
  link_check random er dr b cur nxt st = Ok (brk, st') -> links_ok st'.
Proof.
  unfold link_check; intros He Hl H.
  pose proof (draw_links st) as Hd1.
  destruct (draw random st) as [r1 st1]; simpl in Hd1.
  pose proof (draw_links st1) as Hd2.
  destruct (draw random st1) as [r2 st2]; simpl in Hd2.
  destruct (Qltb r1 er || Qltb r2 dr).
  - match type of H with
    | context [recovery_loop random er dr max_retries 0 b cur nxt ?s] =>
        destruct (recovery_loop random er dr max_retries 0 b cur nxt s)
          as [[rc st3]| |] eqn:Hr; cbn [bind] in H; try discriminate;
        apply recovery_loop_links in Hr
    end.
    injection H as _ <-.
    assert (Hadd : links_ok (mkSim (rng st2) (set_add (cur, nxt) (disrupted_links st2))
                     0 0%nat [] 0%nat 0%nat 0%nat)).
    { destruct Hl as [Hn Hf]; rewrite Hd2, Hd1.
      split; [apply set_add_NoDup; exact Hn|apply set_add_Forall; [exact Hf|exact He]]. }
    destruct (buffer_store b cur _); simpl in Hr;
      (destruct Hr as [Hr|[x Hr]];
       [apply (links_ok_filter _ (cur, nxt) _ Hadd); left; simpl; exact Hr
       |apply (links_ok_filter _ x _ Hadd); right; simpl; exact Hr]).
  - injection H as _ <-. unfold links_ok in *; rewrite Hd2, Hd1; exact Hl.
Qed.

Lemma transmit_links cur nxt st ok st' :
  (exists a, edge_attr g cur nxt = Ok a) -> links_ok st ->
  transmit random g er cur nxt st = Ok (ok, st') -> links_ok st'.
Proof.
  unfold transmit; intros He Hl H.
  clear He; destruct (edge_attr g cur nxt) as [[d dist]| |] eqn:Ea; cbn [bind] in H;
    try discriminate.
  pose proof (draw_links st) as Hd.
  destruct (draw random st) as [r st1]; simpl in Hd.
  destruct Hl as [Hn Hf].
  destruct (Qltb _ _); injection H as _ <-; unfold links_ok; simpl; rewrite Hd.
  - split; [apply set_add_NoDup; exact Hn|apply set_add_Forall; [exact Hf|exists (d, dist); exact Ea]].
  - split; assumption.
Qed.
End Links.

(** *** The buffer of a run that starts empty *)

Definition buffer_ok (b : Bundle) (buf : Buffer) : Prop :=
  Forall (fun e => snd e = [] \/ snd e = [b]) buf.

Lemma buf_get_ok b buf node : buffer_ok b buf ->
  buf_get buf node = [] \/ buf_get buf node = [b].
Proof.
  induction 1 as [|[k l] buf Hl _ IH]; simpl; [left; reflexivity|].
  destruct (String.eqb k node); [exact Hl|exact IH].
Qed.

Lemma buf_set_ok b buf node l : buffer_ok b buf -> (l = [] \/ l = [b]) ->
  buffer_ok b (buf_set buf node l).
Proof.
  intros H Hl; induction H as [|[k l'] buf Hl' H IH]; simpl.
  - constructor; [exact Hl|constructor].
  - destruct (String.eqb k node); constructor; simpl; [exact Hl|exact H| |exact IH].
    exact Hl'.
Qed.

Lemma buffer_store_ok b node buf buf' :
  buffer_ok b buf -> buffer_store b node buf = Some buf' -> buffer_ok b buf'.
Proof.
  unfold buffer_store; intros Hb H.
  destruct (buf_get_ok b buf node Hb) as [E|E]; rewrite E in H; simpl in H.
  - injection H as <-; apply buf_set_ok; [exact Hb|right; reflexivity].
  - unfold bundle_in in H; simpl in H; rewrite bundle_eqb_refl in H; discriminate.
Qed.

Section Buf.
Context {Gen : Type} (random : Gen -> Q * Gen) (g : Graph) (er dr : Q) (b : Bundle).

Lemma recovery_loop_buf k rc cur nxt st rc' st' :
  buffer_ok b (buffer st) ->
  recovery_loop random er dr k rc b cur nxt st = Ok (rc', st') ->
  buffer_ok b (buffer st').
Proof.
  revert rc st; induction k as [|k IH]; intros rc st Hb H; cbn [recovery_loop] in H.
  - injection H as _ <-; exact Hb.
  - pose proof (draw_buffer random st) as Hd.
    destruct (draw random st) as [r st1]; simpl in Hd.
    destruct (Qltb ((er + dr) / 2) r).
    + destruct (buf_has (buffer st1) cur).
      * rewrite Hd in H.
        destruct (buf_get_ok b (buffer st) cur Hb) as [E|E]; rewrite E in H;
          cbn [list_remove bind] in H; [discriminate|].
        rewrite bundle_eqb_refl in H; cbn [bind] in H.
        destruct (set_remove (cur, nxt) _) as [dl| |]; cbn [bind] in H; try discriminate.
        injection H as _ <-; simpl; apply buf_set_ok; [exact Hb|left; reflexivity].
      * cbn [bind] in H.
        destruct (set_remove (cur, nxt) _) as [dl| |]; cbn [bind] in H; try discriminate.
        injection H as _ <-; simpl; rewrite Hd; exact Hb.
    + apply IH in H; [exact H|simpl; rewrite Hd; exact Hb].
Qed.

Lemma link_check_buf cur nxt st brk st' :
  buffer_ok b (buffer st) ->
  link_check random er dr b cur nxt st = Ok (brk, st') -> buffer_ok b (buffer st').
Proof.
  unfold link_check; intros Hb H.
  pose proof (draw_buffer random st) as Hd1.
  destruct (draw random st) as [r1 st1]; simpl in Hd1.
  pose proof (draw_buffer random st1) as Hd2.
  destruct (draw random st1) as [r2 st2]; simpl in Hd2.
  destruct (Qltb r1 er || Qltb r2 dr).
  - match type of H with
    | context [recovery_loop random er dr max_retries 0 b cur nxt ?s] =>
        destruct (recovery_loop random er dr max_retries 0 b cur nxt s)
          as [[rc st3]| |] eqn:Hr; cbn [bind] in H; try discriminate;
        apply recovery_loop_buf in Hr
    end.
    + injection H as _ <-; exact Hr.
    + destruct (buffer_store b cur _) as [buf|] eqn:Es; simpl.
      * simpl in Es; rewrite Hd2, Hd1 in Es; exact (buffer_store_ok b cur _ _ Hb Es).
      * rewrite Hd2, Hd1; exact Hb.
  - injection H as _ <-; rewrite Hd2, Hd1; exact Hb.
Qed.

Lemma transmit_buf cur nxt st ok st' :
  buffer_ok b (buffer st) ->
  transmit random g er cur nxt st = Ok (ok, st') -> buffer_ok b (buffer st').
Proof.
  unfold transmit; intros Hb H.
  destruct (edge_attr g cur nxt) as [[d dist]| |]; cbn [bind] in H; try discriminate.
  pose proof (draw_buffer random st) as Hd.
  destruct (draw random st) as [r st1]; simpl in Hd.
  destruct (Qltb _ _); injection H as _ <-; simpl; rewrite Hd; exact Hb.
Qed.
End Buf.

Lemma max_list_le l k : Forall (fun n => n <= k)%nat l -> (max_list l <= k)%nat.
Proof.
  unfold max_list.
  assert (H : forall a, (a <= k)%nat -> Forall (fun n => n <= k)%nat l ->
                        (fold_left Nat.max l a <= k)%nat).
  { induction l as [|x l IH]; intros a Ha Hl; simpl; [exact Ha|].
    inversion Hl; subst; apply IH; [lia|assumption]. }
  intros Hl; apply H; [lia|exact Hl].
Qed.

(** *** The accumulated delay *)

Lemma edge_attr_in g u v a :
  edge_attr g u v = Ok a -> exists l, In l g /\ (delay l, distance l) = a.
Proof.
  unfold edge_attr.
  assert (H : forall acc, fold_left (fun acc l =>
            if joins l u v then Ok (delay l, distance l) else acc) g acc = Ok a ->
            acc = Ok a \/ exists l, In l g /\ (delay l, distance l) = a).
  { induction g as [|l g IH]; intros acc Hf; simpl in Hf; [left; exact Hf|].
    apply IH in Hf as [Hf|[l' [Hin Hl]]].
    - destruct (joins l u v); [injection Hf as Hf; right; exists l; split; [left|]; auto|].
      left; exact Hf.
    - right; exists l'; split; [right|]; auto. }
  intros Hf; apply H in Hf as [Hf|Hf]; [discriminate|exact Hf].
Qed.

Section Delay.
Context {Gen : Type} (random : Gen -> Q * Gen) (g : Graph) (er dr : Q).

Lemma draw_delay st : total_delay (snd (draw random st)) = total_delay st.
Proof. unfold draw; destruct (random (rng st)); reflexivity. Qed.

Lemma recovery_loop_delay k rc b cur nxt st rc' st' :
  recovery_loop random er dr k rc b cur nxt st = Ok (rc', st') ->
  total_delay st' = total_delay st.
Proof.
  revert rc st; induction k as [|k IH]; intros rc st H; cbn [recovery_loop] in H.
  - injection H as _ <-; reflexivity.
  - pose proof (draw_delay st) as Hd.
    destruct (draw random st) as [r st1]; simpl in Hd.
    destruct (Qltb ((er + dr) / 2) r).
    + destruct (if buf_has _ cur then _ else _) as [buf| |];
        cbn [bind] in H; try discriminate.
      destruct (set_remove (cur, nxt) _) as [dl| |]; cbn [bind] in H; try discriminate.
      injection H as _ <-; exact Hd.
    + apply IH in H; simpl in H; congruence.
Qed.

Lemma link_check_delay b cur nxt st brk st' :
  link_check random er dr b cur nxt st = Ok (brk, st') -> total_delay st' = total_delay st.
Proof.
  unfold link_check; intros H.
  pose proof (draw_delay st) as Hd1.
  destruct (draw random st) as [r1 st1]; simpl in Hd1.
  pose proof (draw_delay st1) as Hd2.
  destruct (draw random st1) as [r2 st2]; simpl in Hd2.
  destruct (Qltb r1 er || Qltb r2 dr).
  - match type of H with
    | context [recovery_loop random er dr max_retries 0 b cur nxt ?s] =>
        destruct (recovery_loop random er dr max_retries 0 b cur nxt s)
          as [[rc st3]| |] eqn:Hr; cbn [bind] in H; try discriminate;
        apply recovery_loop_delay in Hr
    end.
    injection H as _ <-; destruct (buffer_store b cur _); simpl in Hr; congruence.
  - injection H as _ <-; congruence.
Qed.

Lemma transmit_delay cur nxt st ok st' :
  transmit random g er cur nxt st = Ok (ok, st') ->
  if ok then exists d dist, edge_attr g cur nxt = Ok (d, dist)
                            /\ total_delay st' = total_delay st + d
  else total_delay st' = total_delay st.
Proof.
  unfold transmit; intros H.
  destruct (edge_attr g cur nxt) as [[d dist]| |] eqn:Ea; cbn [bind] in H;
    try discriminate.
  pose proof (draw_delay st) as Hd.
  destruct (draw random st) as [r st1]; simpl in Hd.
  destruct (Qltb _ _); injection H as <- <-; simpl; [exact Hd|].
  exists d, dist; split; [reflexivity|]; rewrite Hd; reflexivity.
Qed.

Hypothesis Hnn : forall l, In l g -> 0 <= delay l.

Lemma outer_loop_delay_mono b fuel ps st x st' :
  outer_loop random g er dr fuel b ps st = Ok (x, st') ->
  total_delay st <= total_delay st'.
Proof.
  apply (outer_loop_pres random g er dr b (fun _ _ => True)
           (fun s => total_delay st <= total_delay s)).
  - intros cur nxt s brk s' _ Hs H; apply link_check_delay in H; rewrite H; exact Hs.
  - intros cur nxt s ok s' _ Hs H; apply transmit_delay in H; destruct ok.
    + destruct H as [d [dist [Ea ->]]].
      apply edge_attr_in in Ea as [l [Hin Hl]]; injection Hl as Hl _.
      pose proof (Hnn l Hin); subst d; lra.
    + rewrite H; exact Hs.
  - auto.
  - apply Qle_refl.
Qed.

End Delay.





End Invariants.

(** ** [find_best_path]: the working graph and the edge weight *)

Module BestPath.
Local Open Scope list_scope.

Lemma joins_pair l u v x y :
  joins l x y = true -> joins l u v = pair_match u v x y.
Proof.
  destruct l as [a c d dist]; unfold joins, pair_match; simpl; intros H.
  apply orb_true_iff in H as [H|H]; apply andb_true_iff in H as [H1 H2];
    apply String.eqb_eq in H1, H2; subst.
  - rewrite (String.eqb_sym x u), (String.eqb_sym y v), (String.eqb_sym x v),
      (String.eqb_sym y u).
    rewrite (andb_comm (String.eqb v x)). reflexivity.
  - rewrite (String.eqb_sym y u), (String.eqb_sym x v), (String.eqb_sym y v),
      (String.eqb_sym x u).
    rewrite (andb_comm (String.eqb v y)), orb_comm. reflexivity.
Qed.

Lemma has_edge_remove g u v x y :
  has_edge (remove_edge g u v) x y = has_edge g x y && negb (pair_match u v x y).
Proof.
  unfold has_edge, remove_edge.
  induction g as [|l g IH]; [reflexivity|]. cbn [filter existsb].
  destruct (joins l x y) eqn:Hxy.
  - rewrite (joins_pair l u v x y Hxy).
    destruct (pair_match u v x y); simpl.
    + rewrite IH, andb_false_r; reflexivity.
    + rewrite Hxy; reflexivity.
  - destruct (negb (joins l u v)); simpl; [rewrite Hxy; simpl|]; exact IH.
Qed.

Lemma remove_edge_noop g u v : has_edge g u v = false -> remove_edge g u v = g.
Proof.
  unfold has_edge, remove_edge; induction g as [|l g IH]; simpl; [reflexivity|].
  intros H; apply orb_false_iff in H as [H1 H2].
  rewrite H1; simpl; rewrite (IH H2); reflexivity.
Qed.

Lemma edge_attr_remove g u v x y :
  pair_match u v x y = false -> edge_attr (remove_edge g u v) x y = edge_attr g x y.
Proof.
  unfold edge_attr, remove_edge; intros Hp.
  generalize (Err KeyError : res (Q * string)).
  induction g as [|l g IH]; intros acc; [reflexivity|]. cbn [filter fold_left].
  destruct (joins l u v) eqn:Huv; simpl.
  - destruct (joins l x y) eqn:Hxy.
    + rewrite (joins_pair l u v x y Hxy) in Huv; congruence.
    + apply IH.
  - apply IH.
Qed.

Lemma remove_disrupted_step g e :
  (if has_edge g (fst e) (snd e) then remove_edge g (fst e) (snd e) else g)
  = remove_edge g (fst e) (snd e).
Proof.
  destruct (has_edge g (fst e) (snd e)) eqn:H; [reflexivity|].
  symmetry; apply remove_edge_noop; exact H.
Qed.

Lemma has_edge_remove_disrupted g ds x y :
  has_edge (remove_disrupted g ds) x y
  = has_edge g x y && negb (existsb (fun e => pair_match (fst e) (snd e) x y) ds).
Proof.
  unfold remove_disrupted; revert g; induction ds as [|e ds IH]; intros g;
    cbn [fold_left existsb]; [rewrite andb_true_r; reflexivity|].
  rewrite remove_disrupted_step, IH, has_edge_remove, negb_orb, andb_assoc.
  reflexivity.
Qed.

Lemma edge_attr_remove_disrupted g ds x y :
  existsb (fun e => pair_match (fst e) (snd e) x y) ds = false ->
  edge_attr (remove_disrupted g ds) x y = edge_attr g x y.
Proof.
  unfold remove_disrupted; revert g; induction ds as [|e ds IH]; intros g H;
    cbn [fold_left existsb] in *; [reflexivity|].
  apply orb_false_iff in H as [H1 H2].
  rewrite remove_disrupted_step, IH by exact H2.
  apply edge_attr_remove; exact H1.
Qed.

(** *** Strings *)

Lemma str_app_assoc a b c : ((a ++ b) ++ c)%string = (a ++ (b ++ c))%string.
Proof. induction a as [|x a IH]; simpl; [reflexivity|rewrite IH; reflexivity]. Qed.

Lemma str_app_nil_r a : (a ++ "")%string = a.
Proof. induction a as [|x a IH]; simpl; [reflexivity|rewrite IH; reflexivity]. Qed.

Lemma str_length_app a b :
  String.length (a ++ b) = (String.length a + String.length b)%nat.
Proof. induction a as [|x a IH]; simpl; [reflexivity|rewrite IH; reflexivity]. Qed.

Lemma list_ascii_app a b :
  list_ascii_of_string (a ++ b) = list_ascii_of_string a ++ list_ascii_of_string b.
Proof. induction a as [|x a IH]; simpl; [reflexivity|rewrite IH; reflexivity]. Qed.

Lemma rev_string_app a b :
  rev_string (a ++ b) = (rev_string b ++ rev_string a)%string.
Proof.
  induction a as [|x a IH]; simpl.
  - rewrite str_app_nil_r; reflexivity.
  - rewrite IH, str_app_assoc; reflexivity.
Qed.

Lemma rev_string_involutive a : rev_string (rev_string a) = a.
Proof.
  induction a as [|x a IH]; simpl; [reflexivity|].
  rewrite rev_string_app, IH; reflexivity.
Qed.

Lemma digit_ne c x : is_digit c = true -> is_digit x = false -> c <> x.
Proof. intros Hc Hx ->; congruence. Qed.

Lemma digit_not_space c : is_digit c = true -> is_space c = false.
Proof.
  unfold is_digit, is_space; intros H.
  apply andb_true_iff in H as [H1 H2]; apply Nat.leb_le in H1, H2.
  remember (Ascii.nat_of_ascii c) as n.
  destruct (Nat.leb_spec 9 n), (Nat.leb_spec n 13), (Nat.leb_spec 28 n),
    (Nat.leb_spec n 32), (Nat.eqb_spec n 133), (Nat.eqb_spec n 160);
    simpl; try reflexivity; lia.
Qed.

Lemma ascii_eqb_digit c x : is_digit c = true -> is_digit x = false -> Ascii.eqb c x = false.
Proof.
  intros Hc Hx; destruct (Ascii.eqb_spec c x) as [E|E]; [|reflexivity].
  exfalso; exact (digit_ne c x Hc Hx E).
Qed.

Lemma prefix_digit a o c s :
  is_digit a = false -> is_digit c = true -> String.prefix (String a o) (String c s) = false.
Proof.
  intros Ha Hc; simpl; destruct (ascii_dec a c) as [->|]; [congruence|reflexivity].
Qed.

Section Digits.
Variable v : string.
Hypothesis Hv : Forall (fun c => is_digit c = true) (list_ascii_of_string v).

Lemma replace_aux_digits a o new n w :
  is_digit a = false ->
  replace_aux (String.length v + n) (String a o) new (v ++ w)
  = (v ++ replace_aux n (String a o) new w)%string.
Proof.
  intros Ha; induction v as [|c v' IH]; [reflexivity|].
  simpl in Hv; inversion Hv as [|? ? Hc Hv']; subst.
  cbn [String.length Nat.add append]. cbn [replace_aux].
  rewrite prefix_digit by assumption. rewrite (IH Hv'). reflexivity.
Qed.

Lemma take_digits_app w :
  take_digits (v ++ w) = ((v ++ fst (take_digits w))%string, snd (take_digits w)).
Proof.
  induction v as [|c v' IH]; simpl; [destruct (take_digits w); reflexivity|].
  simpl in Hv; inversion Hv as [|? ? Hc Hv']; subst.
  rewrite Hc, (IH Hv'). reflexivity.
Qed.

Lemma drop_underscores_digits prev w :
  (forall p, prev = Some p -> Ascii.eqb p "_"%char = false) ->
  Forall (fun c => Ascii.eqb c "_"%char = false) (list_ascii_of_string w) ->
  drop_underscores prev (v ++ w) = Some (v ++ w)%string.
Proof.
  intros Hp Hw.
  assert (H : Forall (fun c => Ascii.eqb c "_"%char = false)
                (list_ascii_of_string (v ++ w))).
  { rewrite list_ascii_app; apply Forall_app; split; [|exact Hw].
    eapply Forall_impl; [|exact Hv]; intros c Hc; apply ascii_eqb_digit;
      [exact Hc|reflexivity]. }
  clear Hv Hw; revert prev Hp H; generalize (v ++ w)%string as t.
  induction t as [|c t IH]; intros prev Hp H; cbn [drop_underscores].
  - destruct prev as [p|]; [rewrite (Hp p eq_refl)|]; reflexivity.
  - simpl in H; inversion H as [|? ? Hc Ht]; subst.
    rewrite Hc.
    replace (match prev with Some p => Ascii.eqb p "_"%char | None => false end)
      with false by (destruct prev as [p|]; [rewrite (Hp p eq_refl)|]; reflexivity).
    simpl; rewrite (IH (Some c)); [reflexivity| |exact Ht].
    intros p E; injection E as <-; exact Hc.
Qed.
End Digits.

Lemma rev_digits_head v :
  Forall (fun c => is_digit c = true) (list_ascii_of_string v) -> v <> ""%string ->
  exists c r, rev_string v = String c r /\ is_digit c = true.
Proof.
  induction v as [|c v IH]; intros Hv Hne; [congruence|].
  simpl in Hv; inversion Hv as [|? ? Hc Hv']; subst.
  destruct v as [|c' v'].
  - exists c, ""%string; split; [reflexivity|exact Hc].
  - destruct (IH Hv' ltac:(discriminate)) as [c2 [r [Hr Hc2]]].
    exists c2, (r ++ String c "")%string; split; [|exact Hc2].
    change (rev_string (String c (String c' v')))
      with (rev_string (String c' v') ++ String c "")%string.
    rewrite Hr; reflexivity.
Qed.

Lemma py_strip_id s c r c2 r2 :
  s = String c r -> is_space c = false ->
  rev_string s = String c2 r2 -> is_space c2 = false -> py_strip s = s.
Proof.
  intros Hs Hc Hr Hc2; unfold py_strip.
  replace (lstrip s) with s by (rewrite Hs; simpl; rewrite Hc; reflexivity).
  rewrite Hr; simpl; rewrite Hc2, <- Hr; apply rev_string_involutive.
Qed.

Lemma sign_digit c r : is_digit c = true -> split_sign (String c r) = (false, String c r).
Proof.
  intros Hc; unfold split_sign.
  rewrite !ascii_eqb_digit by (assumption || reflexivity); reflexivity.
Qed.

Lemma inf_nan_digit neg c r : is_digit c = true -> parse_inf_or_nan neg (String c r) = None.
Proof.
  intros Hc; unfold parse_inf_or_nan; cbn [lower].
  assert (E : (if Nat.leb 65 (Ascii.nat_of_ascii c) && Nat.leb (Ascii.nat_of_ascii c) 90
               then Ascii.ascii_of_nat (Ascii.nat_of_ascii c + 32) else c) = c).
  { unfold is_digit in Hc; apply andb_true_iff in Hc as [_ H2]; apply Nat.leb_le in H2.
    destruct (Nat.leb_spec 65 (Ascii.nat_of_ascii c)); [lia|reflexivity]. }
  rewrite E; cbn [String.eqb].
  rewrite !ascii_eqb_digit by (assumption || reflexivity); reflexivity.
Qed.

Lemma replace_digits_tail v a o new w :
  Forall (fun c => is_digit c = true) (list_ascii_of_string v) -> is_digit a = false ->
  py_replace (v ++ w) (String a o) new
  = (v ++ replace_aux (String.length w) (String a o) new w)%string.
Proof.
  intros Hv Ha.
  change (py_replace (v ++ w) (String a o) new)
    with (replace_aux (String.length (v ++ w)) (String a o) new (v ++ w)).
  rewrite str_length_app; apply replace_aux_digits; assumption.
Qed.

Lemma take_digits_all v :
  Forall (fun c => is_digit c = true) (list_ascii_of_string v) ->
  take_digits v = (v, ""%string).
Proof.
  intros Hv; pose proof (take_digits_app v Hv "") as H.
  rewrite !str_app_nil_r in H; exact H.
Qed.

Lemma py_float_digits_space v :
  Forall (fun c => is_digit c = true) (list_ascii_of_string v) -> v <> ""%string ->
  py_float (v ++ " 000000") = Err ValueError.
Proof.
  intros Hv Hne; unfold py_float.
  destruct v as [|c v']; [congruence|].
  pose proof Hv as Hv0; simpl in Hv0; inversion Hv0 as [|? ? Hc _]; subst.
  rewrite (py_strip_id _ c (v' ++ " 000000") "0"%char
             ("00000 " ++ rev_string (String c v'))%string);
    [| reflexivity | apply digit_not_space; exact Hc
     | rewrite rev_string_app; reflexivity | reflexivity].
  rewrite (drop_underscores_digits (String c v') Hv None " 000000");
    [| discriminate | repeat constructor].
  change ((String c v' ++ " 000000")%string) with (String c (v' ++ " 000000")).
  cbv beta iota.
  rewrite sign_digit by exact Hc; cbv beta iota.
  rewrite inf_nan_digit by exact Hc; cbv beta iota.
  unfold parse_decimal.
  change (String c (v' ++ " 000000")) with ((String c v' ++ " 000000")%string).
  rewrite (take_digits_app (String c v') Hv).
  change (take_digits " 000000") with (""%string, " 000000"%string).
  change (take_fraction " 000000") with (""%string, " 000000"%string).
  cbv beta iota; rewrite !str_app_nil_r.
  change (parse_exponent " 000000") with (@None (Z * string)).
  reflexivity.
Qed.

Lemma py_float_digits v :
  Forall (fun c => is_digit c = true) (list_ascii_of_string v) -> v <> ""%string ->
  py_float v = Ok (Fin (inject_Z (digits_value v) * Qpower 10 (0 - 0))).
Proof.
  intros Hv Hne; unfold py_float.
  destruct (rev_digits_head v Hv Hne) as [c2 [r2 [Hr Hc2]]].
  destruct v as [|c v']; [congruence|].
  pose proof Hv as Hv0; simpl in Hv0; inversion Hv0 as [|? ? Hc _]; subst.
  rewrite (py_strip_id _ c v' c2 r2); [| reflexivity | apply digit_not_space; exact Hc
                                      | exact Hr | apply digit_not_space; exact Hc2].
  pose proof (drop_underscores_digits (String c v') Hv None "") as Hd.
  rewrite str_app_nil_r in Hd; rewrite Hd; [| discriminate | constructor].
  cbv beta iota.
  rewrite sign_digit by exact Hc; cbv beta iota.
  rewrite inf_nan_digit by exact Hc; cbv beta iota.
  unfold parse_decimal.
  rewrite (take_digits_all (String c v') Hv).
  change (take_fraction "") with (""%string, ""%string).
  cbv beta iota; rewrite !str_app_nil_r.
  change (parse_exponent "") with (@None (Z * string)).
  reflexivity.
Qed.

Lemma weight_M_km d v :
  Forall (fun c => is_digit c = true) (list_ascii_of_string v) -> v <> ""%string ->
  best_path_weight d (v ++ " M km") = Err ValueError.
Proof.
  intros Hv Hne; unfold best_path_weight.
  rewrite (replace_digits_tail v "M"%char " km" "000000" " M km") by (assumption || reflexivity).
  change (replace_aux (String.length " M km") "M km" "000000" " M km") with " 000000"%string.
  rewrite (replace_digits_tail v " "%char "km" "" " 000000") by (assumption || reflexivity).
  change (replace_aux (String.length " 000000") " km" "" " 000000") with " 000000"%string.
  rewrite py_float_digits_space by assumption; reflexivity.
Qed.

Lemma weight_km d v :
  Forall (fun c => is_digit c = true) (list_ascii_of_string v) -> v <> ""%string ->
  best_path_weight d (v ++ " km")
  = Ok (Fin (d * (1 + inject_Z (digits_value v) * Qpower 10 (0 - 0)))).
Proof.
  intros Hv Hne; unfold best_path_weight.
  rewrite (replace_digits_tail v "M"%char " km" "000000" " km") by (assumption || reflexivity).
  change (replace_aux (String.length " km") "M km" "000000" " km") with " km"%string.
  rewrite (replace_digits_tail v " "%char "km" "" " km") by (assumption || reflexivity).
  change (replace_aux (String.length " km") " km" "" " km") with ""%string.
  rewrite str_app_nil_r, py_float_digits by assumption; reflexivity.
Qed.

End BestPath.

(** ** The statistics of a finished run *)

Module RunFacts.
Import DtnCore Simulator Facts Paths ZeroRates Loops Invariants.
Local Open Scope list_scope.

Lemma path_eqb_refl p : path_eqb p p = true.
Proof. induction p as [|x p IH]; simpl; [reflexivity|rewrite String.eqb_refl; exact IH]. Qed.

Lemma index_of_lt e l : In e l -> (index_of e l < length l)%nat.
Proof.
  induction l as [|x l IH]; intros H; [destruct H|]; cbn [index_of length].
  destruct (path_eqb (fst x) (fst e) && Qeq_bool (snd x) (snd e)) eqn:Hx; [lia|].
  destruct H as [<-|H].
  - rewrite path_eqb_refl, Qeq_bool_refl in Hx; discriminate.
  - specialize (IH H); lia.
Qed.

Lemma paths_with_delays_length g s t pwd :
  paths_with_delays g s t = Ok pwd ->
  exists ps, all_simple_paths g s t = Ok ps /\ length pwd = length ps.
Proof.
  unfold paths_with_delays; intros H.
  destruct (all_simple_paths g s t) as [ps| |] eqn:Ea; cbn [bind] in H; try discriminate.
  exists ps; split; [reflexivity|].
  destruct (delays_ok g ps) as [es [Hes [Hlen _]]].
  { intros p Hp; exact (proj1 (all_simple_paths_spec g s t ps p Ea Hp)). }
  rewrite Hes in H; cbn [bind] in H; injection H as <-.
  rewrite stable_sort_length; exact Hlen.
Qed.


Lemma paths_with_delays_none g s t :
  has_node g s = false -> paths_with_delays g s t = Err NodeNotFound.
Proof.
  unfold paths_with_delays, all_simple_paths; intros H; rewrite H; reflexivity.
Qed.

End RunFacts.

(** ** Properties of the node, routing and simulator code *)

Module Extras.
Import DtnCore Simulator Facts Paths ZeroRates Loops Alternatives Invariants
  BestPath RunFacts Scenarios.
Local Open Scope list_scope.
Local Open Scope Q_scope.

Lemma store_all_capped n l :
  max_buffer_size n = (1024 * 1024)%Z -> (length (DtnCore.buffer n) <= 1024)%nat ->
  store_all n l
  = (repeat true (Nat.min (1024 - length (DtnCore.buffer n)) (length l))
       ++ repeat false (length l - (1024 - length (DtnCore.buffer n))),
     mkDTNNode (node_id n)
       (DtnCore.buffer n ++ firstn (1024 - length (DtnCore.buffer n)) l)
       (1024 * 1024)%Z)%nat.
Proof.
  revert n; induction l as [|b l IH]; intros n Hm Hl; cbn [store_all].
  - destruct n as [nid buf m]; simpl in *; subst m.
    rewrite Nat.min_0_r, app_nil_r, firstn_nil, app_nil_r; reflexivity.
  - unfold store_bundle at 1; rewrite Hm.
    destruct (Z.ltb_spec (Z.of_nat (length (DtnCore.buffer n)) * 1024) (1024 * 1024)%Z) as [Hlt|Hge].
    + assert (Hk : (length (DtnCore.buffer n) < 1024)%nat) by lia.
      rewrite IH by (cbn [max_buffer_size DtnCore.buffer];
        first [reflexivity | rewrite length_app; cbn [length]; lia]).
      cbn [DtnCore.buffer node_id length]. rewrite length_app; cbn [length].
      replace (1024 - length (DtnCore.buffer n))%nat
        with (S (1024 - (length (DtnCore.buffer n) + 1)))%nat by lia.
      cbn [Nat.min Nat.sub repeat firstn app].
      rewrite <- app_assoc; reflexivity.
    + assert (Hk : length (DtnCore.buffer n) = 1024%nat) by lia.
      rewrite IH by assumption. rewrite Hk; cbn [length].
      replace (1024 - 1024)%nat with 0%nat by reflexivity.
      cbn [Nat.min repeat firstn app]. rewrite !Nat.sub_0_r.
      destruct n as [nid buf m]; reflexivity.
Qed.

(** ** X1 *)

(** X1: a node below its capacity accepts a bundle, appending it, and
    [forward_bundle] then hands bundles out first-in first-out: it returns
    the oldest stored bundle (the new one if the buffer was empty) and keeps
    the others in order, the new bundle last. *)
Theorem store_then_forward_fifo n b :
  (Z.of_nat (length (DtnCore.buffer n)) * 1024 < max_buffer_size n)%Z ->
  fst (store_bundle n b) = true
  /\ forward_bundle (snd (store_bundle n b))
     = (Some (hd b (DtnCore.buffer n)),
        mkDTNNode (node_id n) (tl (DtnCore.buffer n ++ [b])) (max_buffer_size n)).
Proof.
  intros H; unfold store_bundle; apply Z.ltb_lt in H; rewrite H.
  split; [reflexivity|]. unfold forward_bundle; cbn [snd DtnCore.buffer node_id max_buffer_size].
  destruct (DtnCore.buffer n) as [|x r]; reflexivity.
Qed.

Lemma store_then_forward_fifo_witness :
  (Z.of_nat (length (DtnCore.buffer (new_node "A"))) * 1024 < max_buffer_size (new_node "A"))%Z
  /\ forward_bundle (snd (store_bundle (new_node "A") (bundle_at "A" "C")))
     = (Some (bundle_at "A" "C"), mkDTNNode "A" [] (1024 * 1024)%Z).
Proof.
  split; [reflexivity|].
  exact (proj2 (store_then_forward_fifo (new_node "A") (bundle_at "A" "C")
                  ltac:(reflexivity))).
Defined.

(** ** X2 *)

(** X2: storing bundles one by one in a fresh [DTNNode] succeeds for the
    first 1024 and fails for every later one; the buffer then holds exactly
    the first 1024 bundles, in order. *)
Theorem fresh_node_stores_first_1024 nid l :
  store_all (new_node nid) l
  = (repeat true (Nat.min 1024 (length l)) ++ repeat false (length l - 1024),
     mkDTNNode nid (firstn 1024 l) (1024 * 1024)%Z)%nat.
Proof.
  rewrite store_all_capped by (reflexivity || (simpl; lia)). reflexivity.
Qed.

(** ** X3 *)

(** X3: [remove_disrupted] (the edge removal loop of [find_best_path])
    keeps exactly the edges that no pair of [current_disruptions] names, in
    either direction, and leaves the attributes of every edge it keeps
    unchanged. *)
Theorem remove_disrupted_edges g ds x y :
  has_edge (remove_disrupted g ds) x y
  = has_edge g x y && negb (existsb (fun e => pair_match (fst e) (snd e) x y) ds)
  /\ (existsb (fun e => pair_match (fst e) (snd e) x y) ds = false ->
      edge_attr (remove_disrupted g ds) x y = edge_attr g x y).
Proof.
  split; [apply has_edge_remove_disrupted|apply edge_attr_remove_disrupted].
Qed.

(** ** X4 *)

(** X4: the edge weight of [find_best_path] reads a distance ["<digits> km"]
    as that number, giving [delay * (1 + n)]; a distance
    ["<digits> M km"] becomes ["<digits> 000000"], which [float] rejects:
    the weight raises [ValueError]. *)
Theorem best_path_weight_units d v :
  Forall (fun c => is_digit c = true) (list_ascii_of_string v) -> v <> ""%string ->
  best_path_weight d (v ++ " M km") = Err ValueError
  /\ exists q, best_path_weight d (v ++ " km") = Ok (Fin (d * (1 + q)))
               /\ q == inject_Z (digits_value v).
Proof.
  intros Hv Hne; split; [apply weight_M_km; assumption|].
  eexists; split; [apply weight_km; assumption|].
  rewrite Qmult_1_r; reflexivity.
Qed.

Lemma best_path_weight_units_witness :
  Forall (fun c => is_digit c = true) (list_ascii_of_string "2") /\ "2" <> ""%string
  /\ best_path_weight 20 "2 M km" = Err ValueError.
Proof.
  split; [repeat constructor|]. split; [discriminate|].
  exact (proj1 (best_path_weight_units 20 "2" ltac:(repeat constructor)
                  ltac:(discriminate))).
Defined.

(** ** X5 *)

(** X5: [simulate_transmission] from a source that is not a node of the
    graph raises [NodeNotFound] (from [nx.all_simple_paths]) before any hop,
    whatever the destination. *)
Theorem run_missing_endpoint {Gen} (random : Gen -> Q * Gen) g er dr fuel msg s t
    now_id now_ts buf0 rng0 :
  has_node g s = false ->
  simulate_transmission random g er dr fuel msg s t now_id now_ts buf0 rng0
  = Err NodeNotFound.
Proof.
  intros H; unfold simulate_transmission.
  rewrite (paths_with_delays_none g s t H); reflexivity.
Qed.

Lemma run_missing_endpoint_witness :
  has_node topo_ABC "Z" = false
  /\ simulate_transmission half topo_ABC 0 0 5 "m" "Z" "C" t0 t0 [] tt
     = Err NodeNotFound.
Proof.
  split; [reflexivity|].
  apply (run_missing_endpoint half topo_ABC 0 0 5 "m" "Z" "C" t0 t0 [] tt).
  reflexivity.
Defined.

Lemma outer_loop_empty {Gen} (random : Gen -> Q * Gen) g er dr fuel b st :
  outer_loop random g er dr fuel b [] st = NoFuel.
Proof.
  revert st; induction fuel as [|f IH]; intros st; [reflexivity|].
  cbn [outer_loop for_paths bind]. apply IH.
Qed.

(** ** X6 *)

(** X6: when [nx.all_simple_paths] yields no candidate (no route to a
    destination node, or, for a destination string that is not a node, no
    route to any of its characters), [simulate_transmission] raises nothing
    and never returns: its outer loop retries an empty list of candidates
    forever. *)
Theorem run_without_route_never_returns {Gen} (random : Gen -> Q * Gen) g er dr fuel
    msg s t now_id now_ts buf0 rng0 :
  all_simple_paths g s t = Ok [] ->
  simulate_transmission random g er dr fuel msg s t now_id now_ts buf0 rng0 = NoFuel.
Proof.
  intros H; unfold simulate_transmission, paths_with_delays; rewrite H.
  cbn [bind map_res stable_sort fold_left].
  cbv beta iota delta [bind]. rewrite outer_loop_empty. reflexivity.
Qed.

Lemma run_without_route_never_returns_witness :
  all_simple_paths topo_ABC "A" "Z" = Ok []
  /\ simulate_transmission half topo_ABC 0 0 50 "m" "A" "Z" t0 t0 [] tt = NoFuel.
Proof.
  split; [vm_compute; reflexivity|].
  apply (run_without_route_never_returns half topo_ABC 0 0 50 "m" "A" "Z" t0 t0 [] tt).
  vm_compute; reflexivity.
Defined.

(** ** X7 *)

(** X7: the [final_path] a returning run of [simulate_transmission]
    reports is one of the candidates [nx.all_simple_paths] yields;
    [total_available_paths] is the number of those candidates and
    [paths_attempted] (the position of [final_path] in the sorted candidate
    list, plus one) lies between 1 and that number. *)
Theorem run_final_path_counted {Gen} (random : Gen -> Q * Gen) g er dr fuel msg s t
    now_id now_ts buf0 rng0 stats buf :
  simulate_transmission random g er dr fuel msg s t now_id now_ts buf0 rng0
    = Ok (stats, buf) ->
  exists ps, all_simple_paths g s t = Ok ps /\ In (final_path stats) ps
    /\ total_available_paths stats = length ps
    /\ (1 <= paths_attempted stats <= total_available_paths stats)%nat.
Proof.
  intros H.
  destruct (simulate_result random g er dr fuel msg s t now_id now_ts buf0 rng0
              stats buf H) as [pwd [p [d [st [Hp [Ho [Hs _]]]]]]]; subst stats.
  destruct (paths_with_delays_length g s t pwd Hp) as [ps [Ea Hlen]].
  pose proof (outer_loop_in random g er dr fuel _ pwd _ (p, d) st Ho) as Hin.
  destruct (paths_with_delays_in g s t pwd (p, d) Hp Hin) as [ps' [Ea' Hin']].
  rewrite Ea in Ea'; injection Ea' as <-.
  exists ps; cbn [final_path total_available_paths paths_attempted].
  split; [exact Ea|]; split; [exact Hin'|]; split; [exact Hlen|].
  pose proof (index_of_lt (p, d) pwd Hin); lia.
Qed.

Lemma run_final_path_counted_witness :
  exists stats buf,
    simulate_transmission replay topo_two (1 # 2) (1 # 2) 10 "m" "A" "C" t0 t0 []
      [9 # 10; 1 # 10; 9 # 10; 9 # 10; 9 # 10; 9 # 10; 9 # 10; 9 # 10; 9 # 10; 9 # 10]
    = Ok (stats, buf)
    /\ exists ps, all_simple_paths topo_two "A" "C" = Ok ps /\ In (final_path stats) ps
       /\ total_available_paths stats = length ps
       /\ (1 <= paths_attempted stats <= total_available_paths stats)%nat.
Proof.
  case_eq (simulate_transmission replay topo_two (1 # 2) (1 # 2) 10 "m" "A" "C" t0 t0 []
      [9 # 10; 1 # 10; 9 # 10; 9 # 10; 9 # 10; 9 # 10; 9 # 10; 9 # 10; 9 # 10; 9 # 10]);
    [intros [stats buf] E| intros e E; vm_compute in E; discriminate
    | intros E; vm_compute in E; discriminate].
  exists stats, buf; split; [reflexivity|].
  exact (run_final_path_counted replay topo_two _ _ _ _ _ _ _ _ _ _ stats buf E).
Defined.

(** ** X8 *)

(** X8: in the statistics of a run that returns, [successful_recoveries]
    and [stored_bundles] never exceed [disruptions], and
    [total_retransmissions] never exceeds three times [disruptions]. *)
Theorem run_counters_bounded {Gen} (random : Gen -> Q * Gen) g er dr fuel msg s t
    now_id now_ts buf0 rng0 stats buf :
  simulate_transmission random g er dr fuel msg s t now_id now_ts buf0 rng0
    = Ok (stats, buf) ->
  (successful_recoveries stats <= disruptions stats
   /\ stored_bundles stats <= disruptions stats
   /\ total_retransmissions stats <= 3 * disruptions stats)%nat.
Proof.
  intros H.
  destruct (simulate_result random g er dr fuel msg s t now_id now_ts buf0 rng0
              stats buf H) as [pwd [p [d [st [Hp [Ho [Hs _]]]]]]]; subst stats.
  assert (Hc : counts_ok st).
  { refine (outer_loop_pres random g er dr _ (fun _ _ => True) counts_ok _ _ _ _ _ _ _ _ _ Ho);
      [intros; eapply link_check_counts; eassumption
      |intros; eapply transmit_counts; eassumption
      |intros; exact I
      |unfold counts_ok; cbn; lia]. }
  unfold counts_ok, max_retries in Hc; cbn. lia.
Qed.

Lemma run_counters_bounded_witness :
  exists stats buf,
    simulate_transmission replay topo_two (1 # 2) (1 # 2) 10 "m" "A" "C" t0 t0 []
      [9 # 10; 1 # 10; 9 # 10; 9 # 10; 9 # 10; 9 # 10; 9 # 10; 9 # 10; 9 # 10; 9 # 10]
    = Ok (stats, buf)
    /\ (successful_recoveries stats <= disruptions stats
        /\ stored_bundles stats <= disruptions stats
        /\ total_retransmissions stats <= 3 * disruptions stats)%nat.
Proof.
  case_eq (simulate_transmission replay topo_two (1 # 2) (1 # 2) 10 "m" "A" "C" t0 t0 []
      [9 # 10; 1 # 10; 9 # 10; 9 # 10; 9 # 10; 9 # 10; 9 # 10; 9 # 10; 9 # 10; 9 # 10]);
    [intros [stats buf] E| intros e E; vm_compute in E; discriminate
    | intros E; vm_compute in E; discriminate].
  exists stats, buf; split; [reflexivity|].
  exact (run_counters_bounded replay topo_two _ _ _ _ _ _ _ _ _ _ stats buf E).
Defined.

(** ** X9 *)

(** X9: the [disrupted_links] reported by a run that returns hold no
    duplicate, and each of them is an edge of the graph. *)
Theorem run_disrupted_links_are_edges {Gen} (random : Gen -> Q * Gen) g er dr fuel msg
    s t now_id now_ts buf0 rng0 stats buf :
  simulate_transmission random g er dr fuel msg s t now_id now_ts buf0 rng0
    = Ok (stats, buf) ->
  NoDup (st_disrupted_links stats)
  /\ Forall (fun l => exists a, edge_attr g (fst l) (snd l) = Ok a)
       (st_disrupted_links stats).
Proof.
  intros H.
  destruct (simulate_result random g er dr fuel msg s t now_id now_ts buf0 rng0
              stats buf H) as [pwd [p [d [st [Hp [Ho [Hs _]]]]]]]; subst stats.
  cbn [st_disrupted_links].
  refine (outer_loop_pres random g er dr _ (fun u v => exists a, edge_attr g u v = Ok a)
            (fun st => NoDup (disrupted_links st)
               /\ Forall (fun l => exists a, edge_attr g (fst l) (snd l) = Ok a)
                    (disrupted_links st)) _ _ _ _ _ _ _ _ _ Ho);
      [intros; eapply link_check_links; eassumption
      |intros; eapply transmit_links; eassumption
      |intros pd h Hpd Hh; exact (paths_with_delays_edges g s t pwd Hp pd h Hpd Hh)
      |cbn; split; constructor].
Qed.

Lemma run_disrupted_links_are_edges_witness :
  exists stats buf,
    simulate_transmission replay topo_two (1 # 2) (1 # 2) 10 "m" "A" "C" t0 t0 []
      [9 # 10; 9 # 10; 1 # 10; 9 # 10; 9 # 10; 1 # 10; 9 # 10; 9 # 10; 9 # 10; 9 # 10]
    = Ok (stats, buf)
    /\ NoDup (st_disrupted_links stats)
    /\ Forall (fun l => exists a, edge_attr topo_two (fst l) (snd l) = Ok a)
         (st_disrupted_links stats).
Proof.
  case_eq (simulate_transmission replay topo_two (1 # 2) (1 # 2) 10 "m" "A" "C" t0 t0 []
      [9 # 10; 9 # 10; 1 # 10; 9 # 10; 9 # 10; 1 # 10; 9 # 10; 9 # 10; 9 # 10; 9 # 10]);
    [intros [stats buf] E| intros e E; vm_compute in E; discriminate
    | intros E; vm_compute in E; discriminate].
  exists stats, buf; split; [reflexivity|].
  exact (run_disrupted_links_are_edges replay topo_two _ _ _ _ _ _ _ _ _ _ stats buf E).
Defined.

(** ** X10 *)

(** X10: started with an empty [self.buffer], a run that returns leaves
    every node's buffer list empty or holding just the one bundle it sent;
    so [max_stored_bundles] and every count of [buffer_states] are at most 1. *)
Theorem run_from_empty_buffer_holds_one {Gen} (random : Gen -> Q * Gen) g er dr fuel
    msg s t now_id now_ts rng0 stats buf :
  simulate_transmission random g er dr fuel msg s t now_id now_ts [] rng0
    = Ok (stats, buf) ->
  Forall (fun e => snd e = [] \/ snd e = [make_bundle s t msg (Some now_ts)
                      (Some ("bundle_" ++ strftime_HMS now_id)%string) 1 now_ts]) buf
  /\ (max_stored_bundles stats <= 1)%nat
  /\ Forall (fun e => (snd e <= 1)%nat) (buffer_states stats).
Proof.
  intros H.
  destruct (simulate_result random g er dr fuel msg s t now_id now_ts [] rng0
              stats buf H) as [pwd [p [d [st [Hp [Ho [Hs Hb]]]]]]]; subst stats buf.
  assert (Hok : buffer_ok (make_bundle s t msg (Some now_ts)
                  (Some ("bundle_" ++ strftime_HMS now_id)%string) 1 now_ts) (buffer st)).
  { refine (outer_loop_pres random g er dr _ (fun _ _ => True)
              (fun st => buffer_ok (make_bundle s t msg (Some now_ts)
                  (Some ("bundle_" ++ strftime_HMS now_id)%string) 1 now_ts) (buffer st)) _ _ _ _ _ _ _ _ _ Ho);
      [intros; eapply link_check_buf; eassumption
      |intros; eapply transmit_buf; eassumption
      |intros; exact I
      |constructor]. }
  assert (Hle : Forall (fun e => (length (snd e) <= 1)%nat) (buffer st)).
  { eapply Forall_impl; [|exact Hok]. intros e [He|He]; rewrite He; cbn; lia. }
  split; [exact Hok|]; cbn [max_stored_bundles buffer_states]; split.
  - apply max_list_le, Forall_map; exact Hle.
  - apply Forall_map; exact Hle.
Qed.

Lemma run_from_empty_buffer_holds_one_witness :
  exists stats buf,
    simulate_transmission replay topo_two (1 # 2) (1 # 2) 10 "m" "A" "C" t0 t0 []
      [9 # 10; 1 # 10; 9 # 10; 9 # 10; 9 # 10; 9 # 10; 9 # 10; 9 # 10; 9 # 10; 9 # 10]
    = Ok (stats, buf)
    /\ (max_stored_bundles stats <= 1)%nat
    /\ Forall (fun e => (snd e <= 1)%nat) (buffer_states stats).
Proof.
  case_eq (simulate_transmission replay topo_two (1 # 2) (1 # 2) 10 "m" "A" "C" t0 t0 []
      [9 # 10; 1 # 10; 9 # 10; 9 # 10; 9 # 10; 9 # 10; 9 # 10; 9 # 10; 9 # 10; 9 # 10]);
    [intros [stats buf] E| intros e E; vm_compute in E; discriminate
    | intros E; vm_compute in E; discriminate].
  exists stats, buf; split; [reflexivity|].
  exact (proj2 (run_from_empty_buffer_holds_one replay topo_two _ _ _ _ _ _ _ _ _
                  stats buf E)).
Defined.

(** ** X11 *)



(** ** X12 *)

(** X12: every pair [(path, delay)] returned by [get_alternative_paths] is
    a candidate of [nx.all_simple_paths] with its summed link delay: a path
    of the graph (every hop an edge) from the source, ending at one of the
    targets: the destination itself when it is a node, otherwise one of its
    characters read as a node name. *)
Theorem alternatives_are_graph_paths self s t k p d :
  In (p, d) (get_alternative_paths self s t k) ->
  edges_ok (network_graph self) p
  /\ path_delay (network_graph self) p = Ok d
  /\ (exists q, p = s :: q)
  /\ In (last p "") (path_targets (network_graph self) t)
  /\ (has_node (network_graph self) t = true -> last p "" = t).
Proof.
  unfold get_alternative_paths; intros H.
  set (g := network_graph self) in *.
  destruct (all_simple_paths g s t) as [ps| |] eqn:Ea; cbn [bind] in H;
    [|destruct H|destruct H].
  destruct (map_res (path_entry g) ps) as [es| |] eqn:Ees; [|destruct H|destruct H].
  apply in_map_iff in H as [[[p' d'] r'] [Heq Hin]].
  cbn in Heq; injection Heq as <- <-.
  pose proof (map_res_Forall (path_entry g)
                (fun x e => fst (fst e) = x /\ path_delay g x = Ok (snd (fst e)))
                ps es Ees) as Hf.
  assert (Hall : Forall (fun e => exists x, In x ps
                   /\ fst (fst e) = x /\ path_delay g x = Ok (snd (fst e))) es).
  { apply Hf. intros x y Hy; unfold path_entry in Hy.
    destruct (path_delay g x) as [dx| |] eqn:Hd; cbn [bind] in Hy; try discriminate.
    destruct (path_reliability g x); cbn [bind] in Hy; try discriminate.
    injection Hy as <-; split; reflexivity. }
  apply (stable_sort_Forall score), (Forall_firstn _ k) in Hall.
  rewrite Forall_forall in Hall.
  destruct (Hall _ Hin) as [x [Hx [Hpx Hdx]]]; cbn in Hpx, Hdx; subst x.
  destruct (all_simple_paths_spec g s t ps p' Ea Hx) as [Hok [Hq Hl]].
  split; [exact Hok|]; split; [exact Hdx|]; split; [exact Hq|]; split; [exact Hl|].
  intros Ht; rewrite path_targets_node in Hl by exact Ht.
  destruct Hl as [Hl|[]]; symmetry; exact Hl.
Qed.

Lemma alternatives_are_graph_paths_witness :
  In (["A"; "D"; "C"], 4) (get_alternative_paths (mkRouting topo_two []) "A" "C" 3)
  /\ path_delay topo_two ["A"; "D"; "C"] = Ok 4.
Proof.
  assert (H : In (["A"; "D"; "C"], 4)
                (get_alternative_paths (mkRouting topo_two []) "A" "C" 3)).
  { vm_compute; right; left; reflexivity. }
  split; [exact H|].
  exact (proj1 (proj2 (alternatives_are_graph_paths (mkRouting topo_two []) "A" "C" 3
                         ["A"; "D"; "C"] 4 H))).
Defined.

End Extras.


